(** * Minesweeper: the knowledge-based player of [minesweeper.py]

    A shallow embedding of the three classes of the program
    ([Minesweeper], [Sentence], [MinesweeperAI]) and the properties of the
    inference engine that the specification states about them.

    Conventions of the embedding.
    - A cell is a pair of Python integers, here [Z * Z].
    - A Python [set] of cells is a [gset Cell]; [len] is [size].
    - A [Sentence] object is a record carrying, besides its two attributes,
      the identity of the object ([oid]): the program compares sentences
      both by value ([==], [in], [list.remove]) and by identity ([is]).
      Every sentence object is referenced from one slot of
      [self.knowledge] only, so the heap of sentences is that list, and an
      in-place mutation of an object is an update of its slot.
    - [self.knowledge] is a [list]; the two [for] loops of step 5 of
      [add_knowledge] run over it while it is being modified, so they are
      modelled with the cursor of Python's list iterator (an index that
      is compared with the current length before each step) and with fuel,
      since nothing in the loop itself bounds the number of steps. *)

From stdpp Require Import gmap list.

Abbreviation Cell := (Z * Z)%type.

(** [range(x - 1, x + 2)] *)
Definition range3 (x : Z) : list Z := [x - 1; x; x + 1]%Z.

(** The pairs [(i, j)] visited by the nested loops
    [for i in range(cell[0] - 1, cell[0] + 2): for j in range(cell[1] - 1, cell[1] + 2)],
    in the order of the visit. *)
Definition window (cell : Cell) : list Cell :=
  i ← range3 cell.1; j ← range3 cell.2; [(i, j)].

(** [0 <= i < height and 0 <= j < width] *)
Definition in_bounds (height width : Z) (ij : Cell) : bool :=
  ((0 <=? ij.1) && (ij.1 <? height) && (0 <=? ij.2) && (ij.2 <? width))%Z.

(** ** class Minesweeper *)
Module Minesweeper.

(** [board[i][j]] is [True] exactly for the cells of [self.mines]: the
    constructor sets both together. *)
Record t : Type := mk {
  height : Z;
  width : Z;
  mines : gset Cell
}.

Definition board (g : t) (ij : Cell) : bool := bool_decide (ij ∈ mines g).

Definition is_mine (g : t) (cell : Cell) : bool := board g cell.

(** The body of the loop of [nearby_mines]. *)
Definition count_neighbor (g : t) (cell : Cell) (count : Z) (ij : Cell) : Z :=
  if bool_decide (ij = cell) then count
  else if in_bounds (height g) (width g) ij
       then (if board g ij then count + 1 else count)%Z
       else count.

Definition nearby_mines (g : t) (cell : Cell) : Z :=
  foldl (count_neighbor g cell) 0%Z (window cell).

End Minesweeper.

(** ** class Sentence *)
Module Sentence.

Record t : Type := mk {
  oid : nat;
  cells : gset Cell;
  count : Z
}.

(** [__eq__] *)
Definition eqb (s other : t) : bool :=
  bool_decide (cells s = cells other) && bool_decide (count s = count other).

(** [sentence_one is sentence_two] *)
Definition is_ (s other : t) : bool := bool_decide (oid s = oid other).

Definition known_mines (s : t) : option (gset Cell) :=
  if bool_decide (count s = Z.of_nat (size (cells s))) then Some (cells s) else None.

Definition known_safes (s : t) : option (gset Cell) :=
  if bool_decide (count s = 0%Z) then Some (cells s) else None.

Definition mark_mine (cell : Cell) (s : t) : t :=
  if bool_decide (cell ∈ cells s)
  then mk (oid s) (cells s ∖ {[cell]}) (count s - 1)
  else s.

Definition mark_safe (cell : Cell) (s : t) : t :=
  if bool_decide (cell ∈ cells s)
  then mk (oid s) (cells s ∖ {[cell]}) (count s)
  else s.

End Sentence.

(** ** class MinesweeperAI *)
Module MinesweeperAI.

Record t : Type := mk {
  height : Z;
  width : Z;
  moves_made : gset Cell;
  mines : gset Cell;
  safes : gset Cell;
  knowledge : list Sentence.t;
  (** identity given to the next [Sentence] object created *)
  next_oid : nat
}.

(** [__init__] *)
Definition init (height width : Z) : t := mk height width ∅ ∅ ∅ [] 0.

Definition mark_mine (cell : Cell) (ai : t) : t :=
  mk (height ai) (width ai) (moves_made ai)
     ({[cell]} ∪ mines ai) (safes ai)
     (Sentence.mark_mine cell <$> knowledge ai) (next_oid ai).

Definition mark_safe (cell : Cell) (ai : t) : t :=
  mk (height ai) (width ai) (moves_made ai)
     (mines ai) ({[cell]} ∪ safes ai)
     (Sentence.mark_safe cell <$> knowledge ai) (next_oid ai).

(** [self.moves_made.add(cell)] *)
Definition add_move (cell : Cell) (ai : t) : t :=
  mk (height ai) (width ai) ({[cell]} ∪ moves_made ai)
     (mines ai) (safes ai) (knowledge ai) (next_oid ai).

(** [self.knowledge.append(Sentence(cells, count))]: a new object. *)
Definition append_sentence (cells : gset Cell) (count : Z) (ai : t) : t :=
  mk (height ai) (width ai) (moves_made ai) (mines ai) (safes ai)
     (knowledge ai ++ [Sentence.mk (next_oid ai) cells count])
     (S (next_oid ai)).

(** [self.knowledge.remove(x)]: the first item equal to [x] goes. *)
Fixpoint list_remove (x : Sentence.t) (l : list Sentence.t) : list Sentence.t :=
  match l with
  | [] => []
  | y :: l' => if Sentence.eqb y x then l' else y :: list_remove x l'
  end.

Definition remove_sentence (x : Sentence.t) (ai : t) : t :=
  mk (height ai) (width ai) (moves_made ai) (mines ai) (safes ai)
     (list_remove x (knowledge ai)) (next_oid ai).

(** [x in self.knowledge] for a sentence of the given attributes. *)
Definition in_knowledge (cells : gset Cell) (count : Z) (ai : t) : bool :=
  existsb (λ y, Sentence.eqb y (Sentence.mk (next_oid ai) cells count))
          (knowledge ai).

(** The body of the neighbourhood loop of [add_knowledge]; the
    accumulator is the pair of the local variables
    [undetermined_cells] and [count]. *)
Definition scan_neighbor (ai : t) (cell : Cell)
    (acc : gset Cell * Z) (check_cell : Cell) : gset Cell * Z :=
  if bool_decide (check_cell = cell) then acc
  else if in_bounds (height ai) (width ai) check_cell then
    if bool_decide (check_cell ∉ moves_made ai)
       && bool_decide (check_cell ∉ mines ai)
    then ({[check_cell]} ∪ acc.1, acc.2)
    else if bool_decide (check_cell ∈ mines ai)
         then (acc.1, (acc.2 - 1)%Z)
         else acc
  else acc.

(** Steps 1 to 3 of [add_knowledge]. *)
Definition new_sentence (cell : Cell) (count : Z) (ai : t) : t :=
  let ai := add_move cell ai in
  let ai := mark_safe cell ai in
  let acc := foldl (scan_neighbor ai cell) (∅, count) (window cell) in
  append_sentence acc.1 acc.2 ai.

(** [for cell in cells.copy(): self.mark_safe(cell)] *)
Definition mark_all_safe (cells : gset Cell) (ai : t) : t :=
  foldl (λ ai cell, mark_safe cell ai) ai (elements cells).

Definition mark_all_mines (cells : gset Cell) (ai : t) : t :=
  foldl (λ ai cell, mark_mine cell ai) ai (elements cells).

(** The body of the loop of step 4, for the sentence in slot [i]. The
    object is read again after the safe cells were marked, since that
    marking mutates it. *)
Definition conclude (ai : t) (i : nat) : t :=
  match knowledge ai !! i with
  | None => ai
  | Some sentence =>
    let ai :=
      match Sentence.known_safes sentence with
      | Some check_new_safes => mark_all_safe check_new_safes ai
      | None => ai
      end in
    match knowledge ai !! i with
    | None => ai
    | Some sentence =>
      match Sentence.known_mines sentence with
      | Some check_new_mines => mark_all_mines check_new_mines ai
      | None => ai
      end
    end
  end.

(** Step 4: one pass over the list, whose length no step changes. *)
Definition conclusions (ai : t) : t :=
  foldl conclude ai (seq 0 (length (knowledge ai))).

(** The body of the inner loop of step 5. *)
Definition compare_pair (sentence_one sentence_two : Sentence.t) (ai : t) : t :=
  if Sentence.is_ sentence_one sentence_two then ai
  else if Sentence.eqb sentence_one sentence_two then
    remove_sentence sentence_two ai
  else if bool_decide (Sentence.cells sentence_one ⊆ Sentence.cells sentence_two) then
    let cells := Sentence.cells sentence_two ∖ Sentence.cells sentence_one in
    let count := (Sentence.count sentence_two - Sentence.count sentence_one)%Z in
    if in_knowledge cells count ai then ai
    else append_sentence cells count ai
  else ai.

(** [for sentence_two in self.knowledge: ...], the iterator being at
    index [j]. *)
Fixpoint inner_loop (fuel : nat) (sentence_one : Sentence.t) (j : nat) (ai : t)
    : option t :=
  match fuel with
  | O => None
  | S fuel =>
    match knowledge ai !! j with
    | None => Some ai
    | Some sentence_two =>
      inner_loop fuel sentence_one (S j) (compare_pair sentence_one sentence_two ai)
    end
  end.

(** [for sentence_one in self.knowledge: ...], the iterator being at
    index [i]. *)
Fixpoint outer_loop (fuel : nat) (i : nat) (ai : t) : option t :=
  match fuel with
  | O => None
  | S fuel =>
    match knowledge ai !! i with
    | None => Some ai
    | Some sentence_one =>
      match inner_loop fuel sentence_one 0 ai with
      | None => None
      | Some ai => outer_loop fuel (S i) ai
      end
    end
  end.

(** Step 5. *)
Definition inferences (fuel : nat) (ai : t) : option t := outer_loop fuel 0 ai.

Definition add_knowledge (fuel : nat) (cell : Cell) (count : Z) (ai : t) : option t :=
  inferences fuel (conclusions (new_sentence cell count ai)).

End MinesweeperAI.


(** A game played from the initial state of the player: the driver calls
    [add_knowledge] once for each revealed cell. *)
Fixpoint play (fuel : nat) (observations : list (Cell * Z)) (ai : MinesweeperAI.t)
    : option MinesweeperAI.t :=
  match observations with
  | [] => Some ai
  | (cell, count) :: rest =>
    match MinesweeperAI.add_knowledge fuel cell count ai with
    | None => None
    | Some ai => play fuel rest ai
    end
  end.

(** What the driver passes to [add_knowledge]: a cell of the board that is
    not a mine, with the number the board reports for it. *)
Definition valid_observation (g : Minesweeper.t) (o : Cell * Z) : Prop :=
  in_bounds (Minesweeper.height g) (Minesweeper.width g) o.1 = true ∧
  Minesweeper.is_mine g o.1 = false ∧
  o.2 = Minesweeper.nearby_mines g o.1.

(** * Definitions used to state the properties *)

(** ** Soundness of the knowledge with respect to a board

    The invariant behind the properties of reachable states: every
    conclusion of the player is true of the board [g] it plays on. *)

(** A sentence is true of the board, and speaks of cells of the board. *)
Definition sentence_ok (g : Minesweeper.t) (s : Sentence.t) : Prop :=
  Sentence.count s = Z.of_nat (size (Sentence.cells s ∩ Minesweeper.mines g)) ∧
  ∀ c, c ∈ Sentence.cells s →
       in_bounds (Minesweeper.height g) (Minesweeper.width g) c = true.

Record sound (g : Minesweeper.t) (ai : MinesweeperAI.t) : Prop := mk_sound {
  sound_height : MinesweeperAI.height ai = Minesweeper.height g;
  sound_width : MinesweeperAI.width ai = Minesweeper.width g;
  sound_moves : MinesweeperAI.moves_made ai ## Minesweeper.mines g;
  sound_safes : MinesweeperAI.safes ai ## Minesweeper.mines g;
  sound_mines : MinesweeperAI.mines ai ⊆ Minesweeper.mines g;
  sound_knowledge : Forall (sentence_ok g) (MinesweeperAI.knowledge ai)
}.


(** ** Termination of the inference loops

    The loops of step 5 run over a list that grows and shrinks under
    them. Two measures bound them: inside one run of the inner loop, the
    sentences still to visit, those that can yield a new sentence counted
    twice; across the whole step, the length of the list plus the number of
    cell sets of the board that no sentence of the list has yet. *)

(** [for i in range(self.height): for j in range(self.width)], the cells
    of the board as [make_random_move] enumerates them. *)
Definition board_cells (height width : Z) : list Cell :=
  i ← seqZ 0 height; j ← seqZ 0 width; [(i, j)].

(** All the sets of cells drawn from a list. *)
Fixpoint subsets (l : list Cell) : gset (gset Cell) :=
  match l with
  | [] => {[ ∅ ]}
  | x :: l => subsets l ∪ set_map (λ X : gset Cell, {[x]} ∪ X) (subsets l)
  end.

(** The cell sets of the sentences of a list. *)
Definition cell_sets (K : list Sentence.t) : gset (gset Cell) :=
  list_to_set (Sentence.cells <$> K).

Definition weight (s1 s : Sentence.t) : nat :=
  if bool_decide (Sentence.cells s1 ⊆ Sentence.cells s) then 2 else 1.

(** What is left of the inner loop of [sentence_one = s1] at index [j]. *)
Definition todo (s1 : Sentence.t) (j : nat) (K : list Sentence.t) : nat :=
  sum_list_with (weight s1) (drop j K).

Definition unseen (height width : Z) (K : list Sentence.t) : nat :=
  size (subsets (board_cells height width) ∖ cell_sets K).

Definition potential (ai : MinesweeperAI.t) : nat :=
  length (MinesweeperAI.knowledge ai)
  + unseen (MinesweeperAI.height ai) (MinesweeperAI.width ai)
           (MinesweeperAI.knowledge ai).

(** A sentence equal to [s1] is in the list: [s1] itself, or a copy that
    the inner loop has already passed. *)
Definition present (s1 : Sentence.t) (j : nat) (K : list Sentence.t) : Prop :=
  ∃ (p : nat) (s : Sentence.t),
    K !! p = Some s ∧ Sentence.eqb s s1 = true ∧
    (Sentence.oid s = Sentence.oid s1 ∨ p < j).

(** Fuel that is enough for step 5 from a state. *)
Definition enough_fuel (ai : MinesweeperAI.t) : nat := 3 * potential ai + 2.

(** ** The three sets of cells only grow *)

Definition grows (ai ai' : MinesweeperAI.t) : Prop :=
  MinesweeperAI.moves_made ai ⊆ MinesweeperAI.moves_made ai' ∧
  MinesweeperAI.safes ai ⊆ MinesweeperAI.safes ai' ∧
  MinesweeperAI.mines ai ⊆ MinesweeperAI.mines ai'.

(** ** Sentences are narrowed, never purged *)


(** The bounds of a sentence: [0 <= count <= len(cells)]. *)
Definition within_bounds (s : Sentence.t) : Prop :=
  (0 ≤ Sentence.count s ≤ Z.of_nat (size (Sentence.cells s)))%Z.

(** The calls that change the state of the player. *)
Inductive operation : Type :=
  | Add_knowledge (fuel : nat) (cell : Cell) (count : Z)
  | Mark_safe (cell : Cell)
  | Mark_mine (cell : Cell).

Definition call (op : operation) (ai : MinesweeperAI.t) : option MinesweeperAI.t :=
  match op with
  | Add_knowledge fuel cell count => MinesweeperAI.add_knowledge fuel cell count ai
  | Mark_safe cell => Some (MinesweeperAI.mark_safe cell ai)
  | Mark_mine cell => Some (MinesweeperAI.mark_mine cell ai)
  end.

(** ** Boards and games used in the examples *)

(** One row of five cells, a mine in the second. *)
Definition board_A : Minesweeper.t := Minesweeper.mk 1 5 {[ (0, 1)%Z ]}.

Definition game_A : list (Cell * Z) := [((0, 2)%Z, 1%Z); ((0, 0)%Z, 1%Z)].

Definition state_A : MinesweeperAI.t :=
  MinesweeperAI.mk 1 5
    {[ (0, 2)%Z; (0, 0)%Z ]} {[ (0, 1)%Z ]} {[ (0, 2)%Z; (0, 0)%Z ]}
    [Sentence.mk 0 {[ (0, 3)%Z ]} 0; Sentence.mk 1 ∅ 0] 2.

(** One row of four cells, a mine in the last. *)
Definition board_B : Minesweeper.t := Minesweeper.mk 1 4 {[ (0, 3)%Z ]}.

Definition state_B : MinesweeperAI.t :=
  MinesweeperAI.mk 1 4
    {[ (0, 0)%Z ]} ∅ {[ (0, 0)%Z; (0, 1)%Z ]}
    [Sentence.mk 0 ∅ 0] 1.




Definition game_D : list (Cell * Z) := [((1, 1)%Z, 1%Z); ((0, 2)%Z, 0%Z)].

Definition state_D : MinesweeperAI.t :=
  MinesweeperAI.mk 2 3
    {[ (1, 1)%Z; (0, 2)%Z ]} ∅ {[ (1, 1)%Z; (0, 2)%Z; (0, 1)%Z; (1, 2)%Z ]}
    [Sentence.mk 0 {[ (0, 0)%Z; (1, 0)%Z ]} 1; Sentence.mk 1 ∅ 0] 2.

Definition state_D' : MinesweeperAI.t :=
  MinesweeperAI.mk 2 3
    {[ (1, 1)%Z; (0, 2)%Z ]} ∅ {[ (1, 1)%Z; (0, 2)%Z; (0, 1)%Z; (1, 2)%Z ]}
    [Sentence.mk 0 {[ (0, 0)%Z; (1, 0)%Z ]} 1; Sentence.mk 1 ∅ 0;
     Sentence.mk 2 {[ (0, 0)%Z; (0, 1)%Z; (1, 0)%Z; (1, 2)%Z ]} 1;
     Sentence.mk 3 {[ (0, 1)%Z; (1, 2)%Z ]} 0] 4.

(** Three rows of three cells, three mines. *)
Definition board_E : Minesweeper.t :=
  Minesweeper.mk 3 3 {[ (1, 0)%Z; (1, 2)%Z; (2, 2)%Z ]}.

Definition game_E : list (Cell * Z) := [((0, 0)%Z, 1%Z); ((0, 1)%Z, 2%Z)].

Definition state_E : MinesweeperAI.t :=
  MinesweeperAI.mk 3 3
    {[ (0, 0)%Z; (0, 1)%Z ]} ∅ {[ (0, 0)%Z; (0, 1)%Z ]}
    [Sentence.mk 0 {[ (1, 0)%Z; (1, 1)%Z ]} 1;
     Sentence.mk 1 {[ (0, 2)%Z; (1, 0)%Z; (1, 1)%Z; (1, 2)%Z ]} 2;
     Sentence.mk 2 {[ (0, 2)%Z; (1, 2)%Z ]} 1] 3.

(** The sentences of the third call on [board_E], before and after step 5. *)
Definition sentence_E0 : Sentence.t := Sentence.mk 0 ∅ 0.
Definition sentence_E1 : Sentence.t := Sentence.mk 1 {[ (0, 2)%Z; (1, 2)%Z ]} 1.
Definition sentence_E2 : Sentence.t := Sentence.mk 2 {[ (0, 2)%Z; (1, 2)%Z ]} 1.
Definition sentence_E3 : Sentence.t :=
  Sentence.mk 3 {[ (0, 2)%Z; (1, 2)%Z; (2, 0)%Z; (2, 1)%Z; (2, 2)%Z ]} 2.

Definition state_E' : MinesweeperAI.t :=
  MinesweeperAI.mk 3 3
    {[ (0, 0)%Z; (0, 1)%Z; (1, 1)%Z ]} {[ (1, 0)%Z ]} {[ (0, 0)%Z; (0, 1)%Z; (1, 1)%Z ]}
    [sentence_E0; sentence_E2; sentence_E3] 4.

(** ** The move selection of [MinesweeperAI]

    [make_safe_move] and [make_random_move] draw from Python's global
    random source; the number drawn is the parameter [r] here. *)

(** [random.choice(seq)]: the item at an index drawn below [len(seq)]. *)
Definition choice {A : Type} (r : nat) (seq : list A) : option A :=
  seq !! (r `mod` length seq).

Definition make_safe_move (r : nat) (ai : MinesweeperAI.t) : option Cell :=
  let safe_moves := MinesweeperAI.safes ai ∖ MinesweeperAI.moves_made ai in
  if bool_decide (safe_moves ≠ ∅)
  then choice r (elements safe_moves)
  else None.

Definition make_random_move (r : nat) (ai : MinesweeperAI.t) : option Cell :=
  if bool_decide (Z.of_nat (size (MinesweeperAI.mines ai)
                            + size (MinesweeperAI.moves_made ai))
                  = (MinesweeperAI.height ai * MinesweeperAI.width ai)%Z)
  then None
  else
    let available_moves :=
      filter (λ cell, (cell ∉ MinesweeperAI.moves_made ai) ∧
                      (cell ∉ MinesweeperAI.mines ai))
             (board_cells (MinesweeperAI.height ai) (MinesweeperAI.width ai)) in
    match available_moves with
    | [] => None
    | _ :: _ => choice r available_moves
    end.

(** ** Definitions for the properties of the remaining code *)

(** The cells that the neighbourhood loops of [nearby_mines] and
    [add_knowledge] go on with: those of the window that are not the cell
    and are on the board. *)
Definition neighbours (height width : Z) (cell : Cell) : gset Cell :=
  list_to_set (filter (λ x, x ≠ cell ∧ in_bounds height width x = true)
                      (window cell)).

(** A sentence after the cells of [cs] were marked safe, and after they
    were marked as mines. *)
Definition narrowed_safe (cs : gset Cell) (s : Sentence.t) : Sentence.t :=
  Sentence.mk (Sentence.oid s) (Sentence.cells s ∖ cs) (Sentence.count s).

Definition narrowed_mines (cs : gset Cell) (s : Sentence.t) : Sentence.t :=
  Sentence.mk (Sentence.oid s) (Sentence.cells s ∖ cs)
              (Sentence.count s - Z.of_nat (size (Sentence.cells s ∩ cs))).

(** The second state is the first with cells marked: the list holds the
    same objects at the same places, each with a cell set that lost only
    cells now known to be safe or to be mines; nothing else changed but
    [safes] and [mines], which grew. *)
Definition narrows (ai ai' : MinesweeperAI.t) : Prop :=
  MinesweeperAI.height ai' = MinesweeperAI.height ai ∧
  MinesweeperAI.width ai' = MinesweeperAI.width ai ∧
  MinesweeperAI.moves_made ai' = MinesweeperAI.moves_made ai ∧
  MinesweeperAI.next_oid ai' = MinesweeperAI.next_oid ai ∧
  MinesweeperAI.safes ai ⊆ MinesweeperAI.safes ai' ∧
  MinesweeperAI.mines ai ⊆ MinesweeperAI.mines ai' ∧
  Forall2 (λ s s', Sentence.oid s' = Sentence.oid s ∧
                   Sentence.cells s' ⊆ Sentence.cells s ∧
                   Sentence.cells s ∖ (MinesweeperAI.safes ai' ∪ MinesweeperAI.mines ai')
                     ⊆ Sentence.cells s')
          (MinesweeperAI.knowledge ai) (MinesweeperAI.knowledge ai').

(** The second state is the first with sentences taken out of the list
    and new ones put in: every sentence of the second list is a sentence
    of the first, as it was, or an object made in between; the sets of
    cells are the same. *)
Definition extends (ai ai' : MinesweeperAI.t) : Prop :=
  MinesweeperAI.height ai' = MinesweeperAI.height ai ∧
  MinesweeperAI.width ai' = MinesweeperAI.width ai ∧
  MinesweeperAI.moves_made ai' = MinesweeperAI.moves_made ai ∧
  MinesweeperAI.safes ai' = MinesweeperAI.safes ai ∧
  MinesweeperAI.mines ai' = MinesweeperAI.mines ai ∧
  MinesweeperAI.next_oid ai ≤ MinesweeperAI.next_oid ai' ∧
  Forall (λ s', s' ∈ MinesweeperAI.knowledge ai ∨
                MinesweeperAI.next_oid ai ≤ Sentence.oid s' < MinesweeperAI.next_oid ai')
         (MinesweeperAI.knowledge ai').

(** No sentence speaks of a played cell or of a known mine. *)
Definition clean (ai : MinesweeperAI.t) : Prop :=
  Forall (λ s, Sentence.cells s ## MinesweeperAI.moves_made ai ∧
               Sentence.cells s ## MinesweeperAI.mines ai)
         (MinesweeperAI.knowledge ai).

(** The cells a move can still go to: on the board, neither played nor
    known to be a mine. *)
Definition available (ai : MinesweeperAI.t) (cell : Cell) : Prop :=
  in_bounds (MinesweeperAI.height ai) (MinesweeperAI.width ai) cell = true ∧
  (cell ∉ MinesweeperAI.moves_made ai) ∧ (cell ∉ MinesweeperAI.mines ai).

(** ** The constructor of [Minesweeper]

    [Minesweeper.__init__] places the mines by drawing cells until the set
    of mines has the size asked for. The two calls of [random.randrange]
    of one turn of the loop are modelled by a pair of draws [(r1, r2)],
    reduced to [range(height)] and [range(width)]; [randrange] raises
    [ValueError] on an empty range. The board and the set of mines are
    updated together, so that [board[i][j]] is membership in the set. *)
Inductive outcome (A : Type) : Type :=
  | Returns (a : A)   (* the call returns *)
  | Raises            (* ValueError, from randrange *)
  | Starves.          (* the loop is still running when the draws are used up *)
Arguments Returns {A} a.
Arguments Raises {A}.
Arguments Starves {A}.

Definition randrange (stop : Z) (r : nat) : Z := (Z.of_nat r `mod` stop)%Z.

(** [while len(self.mines) != mines: ...] *)
Fixpoint place_mines (height width mines : Z) (draws : list (nat * nat))
    (acc : gset Cell) : outcome (gset Cell) :=
  if bool_decide (Z.of_nat (size acc) = mines) then Returns acc
  else if bool_decide (height ≤ 0 ∨ width ≤ 0)%Z then Raises
  else match draws with
       | [] => Starves
       | r :: draws =>
         let ij := (randrange height r.1, randrange width r.2) in
         place_mines height width mines draws
           (if bool_decide (ij ∈ acc) then acc else {[ ij ]} ∪ acc)
       end.

Definition Minesweeper_init (height width mines : Z) (draws : list (nat * nat))
    : outcome Minesweeper.t :=
  match place_mines height width mines draws ∅ with
  | Returns placed => Returns (Minesweeper.mk height width placed)
  | Raises => Raises
  | Starves => Starves
  end.

(** * Soundness of the knowledge with respect to a board *)

Section Soundness.

Variable g : Minesweeper.t.

Lemma sound_init :
  sound g (MinesweeperAI.init (Minesweeper.height g) (Minesweeper.width g)).
Proof. split; simpl; try done; set_solver. Qed.

Lemma size_inter_remove_mine (X : gset Cell) (c : Cell) :
  c ∈ X → c ∈ Minesweeper.mines g →
  size (X ∩ Minesweeper.mines g) = S (size ((X ∖ {[c]}) ∩ Minesweeper.mines g)).
Proof.
  intros HX HM.
  assert (X ∩ Minesweeper.mines g
          = {[c]} ∪ (X ∖ {[c]}) ∩ Minesweeper.mines g) as ->.
  { apply set_eq. intros x. destruct (decide (x = c)); set_solver. }
  rewrite size_union; [|set_solver]. by rewrite size_singleton.
Qed.

Lemma size_inter_difference (A B : gset Cell) :
  A ⊆ B →
  size (B ∩ Minesweeper.mines g)
  = size (A ∩ Minesweeper.mines g) + size ((B ∖ A) ∩ Minesweeper.mines g).
Proof.
  intros HAB.
  assert (B ∩ Minesweeper.mines g
          = A ∩ Minesweeper.mines g ∪ (B ∖ A) ∩ Minesweeper.mines g) as ->.
  { apply set_eq. intros x. destruct (decide (x ∈ A)); set_solver. }
  rewrite size_union; [done|set_solver].
Qed.

Lemma sentence_mark_safe_ok (c : Cell) (s : Sentence.t) :
  c ∉ Minesweeper.mines g → sentence_ok g s → sentence_ok g (Sentence.mark_safe c s).
Proof.
  intros Hc [Hn Hb]. unfold Sentence.mark_safe.
  case_bool_decide; [|done]. split; simpl.
  - rewrite Hn. do 2 f_equal. set_solver.
  - intros x Hx. apply Hb. set_solver.
Qed.

Lemma sentence_mark_mine_ok (c : Cell) (s : Sentence.t) :
  c ∈ Minesweeper.mines g → sentence_ok g s → sentence_ok g (Sentence.mark_mine c s).
Proof.
  intros Hc [Hn Hb]. unfold Sentence.mark_mine.
  case_bool_decide as Hin; [|done]. split; simpl.
  - rewrite Hn, (size_inter_remove_mine _ c Hin Hc). lia.
  - intros x Hx. apply Hb. set_solver.
Qed.

Lemma mark_safe_sound (c : Cell) (ai : MinesweeperAI.t) :
  c ∉ Minesweeper.mines g → sound g ai → sound g (MinesweeperAI.mark_safe c ai).
Proof.
  intros Hc [Hh Hw Hmv Hs Hm Hk]. split; simpl; try done.
  - set_solver.
  - apply Forall_fmap. eapply Forall_impl; [exact Hk|].
    intros s Hs'. by apply sentence_mark_safe_ok.
Qed.

Lemma mark_mine_sound (c : Cell) (ai : MinesweeperAI.t) :
  c ∈ Minesweeper.mines g → sound g ai → sound g (MinesweeperAI.mark_mine c ai).
Proof.
  intros Hc [Hh Hw Hmv Hs Hm Hk]. split; simpl; try done.
  - set_solver.
  - apply Forall_fmap. eapply Forall_impl; [exact Hk|].
    intros s Hs'. by apply sentence_mark_mine_ok.
Qed.

Lemma mark_all_safe_sound (cs : gset Cell) (ai : MinesweeperAI.t) :
  cs ## Minesweeper.mines g → sound g ai → sound g (MinesweeperAI.mark_all_safe cs ai).
Proof.
  intros Hcs. unfold MinesweeperAI.mark_all_safe.
  assert (Forall (λ c, c ∉ Minesweeper.mines g) (elements cs)) as Hall.
  { apply Forall_forall. intros c Hc%elem_of_elements. set_solver. }
  revert ai. induction Hall as [|c l Hc _ IH]; intros ai Hai; simpl; [done|].
  apply IH. by apply mark_safe_sound.
Qed.

Lemma mark_all_mines_sound (cs : gset Cell) (ai : MinesweeperAI.t) :
  cs ⊆ Minesweeper.mines g → sound g ai → sound g (MinesweeperAI.mark_all_mines cs ai).
Proof.
  intros Hcs. unfold MinesweeperAI.mark_all_mines.
  assert (Forall (λ c, c ∈ Minesweeper.mines g) (elements cs)) as Hall.
  { apply Forall_forall. intros c Hc%elem_of_elements. set_solver. }
  revert ai. induction Hall as [|c l Hc _ IH]; intros ai Hai; simpl; [done|].
  apply IH. by apply mark_mine_sound.
Qed.

(** What a true sentence lets one conclude is true. *)
Lemma known_safes_ok (s : Sentence.t) (cs : gset Cell) :
  sentence_ok g s → Sentence.known_safes s = Some cs → cs ## Minesweeper.mines g.
Proof.
  intros [Hn _]. unfold Sentence.known_safes.
  case_bool_decide as H0; [|done]. intros [= <-].
  rewrite H0 in Hn. assert (size (Sentence.cells s ∩ Minesweeper.mines g) = 0) as Hz by lia.
  apply size_empty_inv in Hz. set_solver.
Qed.

Lemma known_mines_ok (s : Sentence.t) (cs : gset Cell) :
  sentence_ok g s → Sentence.known_mines s = Some cs → cs ⊆ Minesweeper.mines g.
Proof.
  intros [Hn _]. unfold Sentence.known_mines.
  case_bool_decide as H0; [|done]. intros [= <-].
  rewrite Hn in H0. apply Nat2Z.inj in H0.
  assert (Sentence.cells s ∩ Minesweeper.mines g = Sentence.cells s) as Heq.
  { apply set_subseteq_size_eq; [set_solver|lia]. }
  set_solver.
Qed.

Lemma sound_lookup (ai : MinesweeperAI.t) (i : nat) (s : Sentence.t) :
  sound g ai → MinesweeperAI.knowledge ai !! i = Some s → sentence_ok g s.
Proof.
  intros Hai Hi. eapply Forall_lookup_1; [apply (sound_knowledge g _ Hai)|exact Hi].
Qed.

Lemma conclude_sound (ai : MinesweeperAI.t) (i : nat) :
  sound g ai → sound g (MinesweeperAI.conclude ai i).
Proof.
  intros Hai. unfold MinesweeperAI.conclude.
  destruct (MinesweeperAI.knowledge ai !! i) as [s|] eqn:Hi; [|done].
  pose proof (sound_lookup _ _ _ Hai Hi) as Hs.
  set (ai1 := match Sentence.known_safes s with
              | Some cs => MinesweeperAI.mark_all_safe cs ai
              | None => ai end).
  assert (sound g ai1) as Hai1.
  { subst ai1. destruct (Sentence.known_safes s) as [cs|] eqn:Hks; [|done].
    apply mark_all_safe_sound; [|done]. by eapply known_safes_ok. }
  destruct (MinesweeperAI.knowledge ai1 !! i) as [s'|] eqn:Hi'; [|done].
  pose proof (sound_lookup _ _ _ Hai1 Hi') as Hs'.
  destruct (Sentence.known_mines s') as [cs|] eqn:Hkm; [|done].
  apply mark_all_mines_sound; [|done]. by eapply known_mines_ok.
Qed.

Lemma foldl_conclude_sound (l : list nat) (ai : MinesweeperAI.t) :
  sound g ai → sound g (foldl MinesweeperAI.conclude ai l).
Proof.
  revert ai. induction l as [|i l IH]; intros ai Hai; simpl; [done|].
  apply IH. by apply conclude_sound.
Qed.

Lemma conclusions_sound (ai : MinesweeperAI.t) :
  sound g ai → sound g (MinesweeperAI.conclusions ai).
Proof. apply foldl_conclude_sound. Qed.

(** The cells visited around a cell are pairwise distinct. *)
Lemma NoDup_window (cell : Cell) : NoDup (window cell).
Proof.
  destruct cell as [r c]. unfold window, range3. simpl.
  repeat (apply NoDup_cons; split;
          [rewrite ?elem_of_cons, elem_of_nil;
           intros H; repeat destruct H as [H|H]; try done;
           injection H; lia|]).
  apply NoDup_nil_2.
Qed.

(** The two neighbourhood loops, of the board and of the player, run in
    step: what the player takes off the count is what the board counted
    outside the new sentence. *)
Lemma scan_window_sound (ai : MinesweeperAI.t) (cell : Cell) (l : list Cell) :
  sound g ai → NoDup l →
  ∀ (acc : gset Cell * Z) (n : Z),
    (∀ x, x ∈ l → x ∉ acc.1) →
    (∀ x, x ∈ acc.1 →
          in_bounds (Minesweeper.height g) (Minesweeper.width g) x = true) →
    let acc' := foldl (MinesweeperAI.scan_neighbor ai cell) acc l in
    let n' := foldl (Minesweeper.count_neighbor g cell) n l in
    (acc'.2 - Z.of_nat (size (acc'.1 ∩ Minesweeper.mines g)) + n'
     = acc.2 - Z.of_nat (size (acc.1 ∩ Minesweeper.mines g)) + n)%Z ∧
    (∀ x, x ∈ acc'.1 →
          in_bounds (Minesweeper.height g) (Minesweeper.width g) x = true).
Proof.
  intros Hai Hnd. induction Hnd as [|x l Hx Hnd IH]; intros acc n Hfresh Hb; simpl.
  { done. }
  assert (x ∉ acc.1) as Hxacc by (apply Hfresh; left).
  set (acc1 := MinesweeperAI.scan_neighbor ai cell acc x).
  set (n1 := Minesweeper.count_neighbor g cell n x).
  assert ((acc1.2 - Z.of_nat (size (acc1.1 ∩ Minesweeper.mines g)) + n1
           = acc.2 - Z.of_nat (size (acc.1 ∩ Minesweeper.mines g)) + n)%Z
          ∧ (∀ y, y ∈ acc1.1 → y = x ∨ y ∈ acc.1)
          ∧ (∀ y, y ∈ acc1.1 →
               in_bounds (Minesweeper.height g) (Minesweeper.width g) y = true))
    as (Hstep & Hsub & Hb1).
  { subst acc1 n1. unfold MinesweeperAI.scan_neighbor, Minesweeper.count_neighbor.
    rewrite (sound_height g _ Hai), (sound_width g _ Hai).
    case_bool_decide as Hcell; [by auto|].
    destruct (in_bounds _ _ x) eqn:Hin; [|by auto].
    unfold Minesweeper.board.
    destruct (bool_decide (x ∉ MinesweeperAI.moves_made ai)) eqn:Hmv;
      [apply bool_decide_eq_true in Hmv|apply bool_decide_eq_false in Hmv];
    (destruct (bool_decide (x ∉ MinesweeperAI.mines ai)) eqn:Hmi;
      [apply bool_decide_eq_true in Hmi|apply bool_decide_eq_false in Hmi]);
    simpl.
    - split; [|split].
      + case_bool_decide as HxM.
        * assert (size (({[x]} ∪ acc.1) ∩ Minesweeper.mines g)
                  = S (size (acc.1 ∩ Minesweeper.mines g))) as ->; [|lia].
          rewrite (size_inter_remove_mine ({[x]} ∪ acc.1) x); [|set_solver|done].
          do 2 f_equal. set_solver.
        * assert (({[x]} ∪ acc.1) ∩ Minesweeper.mines g
                  = acc.1 ∩ Minesweeper.mines g) as -> by set_solver. lia.
      + set_solver.
      + intros y [->%elem_of_singleton|Hy]%elem_of_union; auto.
    - assert (x ∈ MinesweeperAI.mines ai) as Hxm
        by (destruct (decide (x ∈ MinesweeperAI.mines ai)); tauto).
      rewrite bool_decide_eq_true_2 by done. simpl.
      rewrite bool_decide_eq_true_2 by (apply (sound_mines g _ Hai); done).
      split; [lia|by auto].
    - assert (x ∈ MinesweeperAI.moves_made ai) as Hxm
        by (destruct (decide (x ∈ MinesweeperAI.moves_made ai)); tauto).
      rewrite bool_decide_eq_false_2 by done.
      rewrite bool_decide_eq_false_2
        by (pose proof (sound_moves g _ Hai); set_solver).
      by auto.
    - assert (x ∈ MinesweeperAI.mines ai) as Hxm
        by (destruct (decide (x ∈ MinesweeperAI.mines ai)); tauto).
      rewrite bool_decide_eq_true_2 by done. simpl.
      rewrite bool_decide_eq_true_2 by (apply (sound_mines g _ Hai); done).
      split; [lia|by auto]. }
  destruct (IH acc1 n1) as [Heq Hb']; [| exact Hb1 |].
  { intros y Hy Hy1. destruct (Hsub y Hy1) as [->|Hyacc]; [done|].
    apply (Hfresh y); [by right|done]. }
  split; [|exact Hb']. rewrite <- Hstep. exact Heq.
Qed.

Lemma new_sentence_sound (cell : Cell) (count : Z) (ai : MinesweeperAI.t) :
  valid_observation g (cell, count) → sound g ai →
  sound g (MinesweeperAI.new_sentence cell count ai).
Proof.
  intros (Hin & Hmine & Hcount) Hai. simpl in *.
  assert (cell ∉ Minesweeper.mines g) as Hcell.
  { unfold Minesweeper.is_mine, Minesweeper.board in Hmine.
    by apply bool_decide_eq_false in Hmine. }
  unfold MinesweeperAI.new_sentence.
  set (ai1 := MinesweeperAI.mark_safe cell (MinesweeperAI.add_move cell ai)).
  assert (sound g ai1) as Hai1.
  { apply mark_safe_sound; [done|]. destruct Hai. split; simpl; try done. set_solver. }
  pose proof (scan_window_sound ai1 cell (window cell) Hai1 (NoDup_window cell)
                (∅, count) 0%Z) as Hscan.
  cbv zeta in Hscan.
  change (foldl (Minesweeper.count_neighbor g cell) 0%Z (window cell))
    with (Minesweeper.nearby_mines g cell) in Hscan.
  remember (foldl (MinesweeperAI.scan_neighbor ai1 cell) (∅, count) (window cell))
    as acc eqn:Hacc. clear Hacc.
  destruct Hscan as [Heq Hb].
  { intros x _. apply not_elem_of_empty. }
  { intros x Hx. by apply not_elem_of_empty in Hx. }
  assert (size ((∅, count).1 ∩ Minesweeper.mines g) = 0) as Hemp.
  { apply size_empty_iff. set_solver. }
  rewrite Hemp in Heq. change ((∅, count).2) with count in Heq.
  destruct Hai1 as [Hh Hw Hmv Hs Hm Hk].
  split; try done.
  unfold MinesweeperAI.append_sentence, MinesweeperAI.knowledge.
  apply Forall_app. split; [done|].
  apply Forall_singleton. split; [|exact Hb].
  unfold Sentence.count, Sentence.cells. lia.
Qed.

(** What step 3 appends, for any state: the neighbours on the board that
    are neither played nor known mines, with the count taken down by the
    neighbours that are known mines. *)
Lemma scan_neighbor_members (ai : MinesweeperAI.t) (cell : Cell)
    (acc : gset Cell * Z) (y x : Cell) :
  x ∈ (MinesweeperAI.scan_neighbor ai cell acc y).1 ↔
  x ∈ acc.1 ∨
  (x = y ∧ x ≠ cell ∧
   in_bounds (MinesweeperAI.height ai) (MinesweeperAI.width ai) x = true ∧
   (x ∉ MinesweeperAI.moves_made ai) ∧ (x ∉ MinesweeperAI.mines ai)).
Proof.
  unfold MinesweeperAI.scan_neighbor.
  case_bool_decide as Hcell.
  { split; [by left|]. intros [H|(-> & Hne & _)]; [done|congruence]. }
  destruct (in_bounds _ _ y) eqn:Hin.
  2:{ split; [by left|]. intros [H|(-> & _ & Hb & _)]; [done|congruence]. }
  destruct (bool_decide (y ∉ MinesweeperAI.moves_made ai)) eqn:Hmv;
    [apply bool_decide_eq_true in Hmv|apply bool_decide_eq_false in Hmv];
  (destruct (bool_decide (y ∉ MinesweeperAI.mines ai)) eqn:Hmi;
    [apply bool_decide_eq_true in Hmi|apply bool_decide_eq_false in Hmi]);
  simpl.
  - rewrite elem_of_union, elem_of_singleton. split.
    + intros [->|H]; [right|by left]. by split_and!.
    + intros [H|(-> & _)]; [by right|by left].
  - assert (∀ z, z ∈ (if bool_decide (y ∈ MinesweeperAI.mines ai)
                      then (acc.1, (acc.2 - 1)%Z) else acc).1 ↔ z ∈ acc.1) as ->
      by (intros z; by case_bool_decide).
    split; [by left|]. intros [H|(-> & _ & _ & _ & H)]; [done|by destruct Hmi].
  - assert (∀ z, z ∈ (if bool_decide (y ∈ MinesweeperAI.mines ai)
                      then (acc.1, (acc.2 - 1)%Z) else acc).1 ↔ z ∈ acc.1) as ->
      by (intros z; by case_bool_decide).
    split; [by left|]. intros [H|(-> & _ & _ & H & _)]; [done|by destruct Hmv].
  - assert (∀ z, z ∈ (if bool_decide (y ∈ MinesweeperAI.mines ai)
                      then (acc.1, (acc.2 - 1)%Z) else acc).1 ↔ z ∈ acc.1) as ->
      by (intros z; by case_bool_decide).
    split; [by left|]. intros [H|(-> & _ & _ & H & _)]; [done|by destruct Hmv].
Qed.

Lemma scan_window_members (ai : MinesweeperAI.t) (cell : Cell) (l : list Cell) :
  ∀ (acc : gset Cell * Z) (x : Cell),
    x ∈ (foldl (MinesweeperAI.scan_neighbor ai cell) acc l).1 ↔
    x ∈ acc.1 ∨
    (x ∈ l ∧ x ≠ cell ∧
     in_bounds (MinesweeperAI.height ai) (MinesweeperAI.width ai) x = true ∧
     (x ∉ MinesweeperAI.moves_made ai) ∧ (x ∉ MinesweeperAI.mines ai)).
Proof.
  induction l as [|y l IH]; intros acc x; simpl.
  - split; [by left|]. intros [H|[H _]]; [done|]. by apply elem_of_nil in H.
  - rewrite IH, scan_neighbor_members, elem_of_cons. tauto.
Qed.

Lemma scan_window_count (ai : MinesweeperAI.t) (cell : Cell) (l : list Cell) :
  ∀ acc : gset Cell * Z,
    (foldl (MinesweeperAI.scan_neighbor ai cell) acc l).2
    = (acc.2
       - Z.of_nat (length (filter (λ x, x ≠ cell ∧
                     in_bounds (MinesweeperAI.height ai) (MinesweeperAI.width ai) x = true ∧
                     x ∈ MinesweeperAI.mines ai) l)))%Z.
Proof.
  induction l as [|y l IH]; intros acc; simpl; [lia|].
  rewrite IH, filter_cons. unfold MinesweeperAI.scan_neighbor.
  case_bool_decide as Hcell.
  { rewrite decide_False; [done|]. intros (H & _). congruence. }
  destruct (in_bounds _ _ y) eqn:Hin.
  2:{ rewrite decide_False; [done|]. intros (_ & H & _). congruence. }
  destruct (decide (y ∈ MinesweeperAI.mines ai)) as [Hy|Hy].
  - rewrite (bool_decide_eq_false_2 (y ∉ MinesweeperAI.mines ai)) by tauto.
    rewrite andb_false_r, bool_decide_eq_true_2 by done.
    rewrite decide_True by done. simpl. lia.
  - rewrite decide_False by tauto.
    rewrite (bool_decide_eq_false_2 (y ∈ MinesweeperAI.mines ai)) by done.
    by destruct (bool_decide (y ∉ MinesweeperAI.moves_made ai)
                 && bool_decide (y ∉ MinesweeperAI.mines ai)).
Qed.

Lemma new_sentence_appends (cell : Cell) (count : Z) (ai : MinesweeperAI.t) :
  ∃ s : Sentence.t,
    MinesweeperAI.knowledge (MinesweeperAI.new_sentence cell count ai)
    = (Sentence.mark_safe cell <$> MinesweeperAI.knowledge ai) ++ [s] ∧
    (∀ x, x ∈ Sentence.cells s ↔
          x ∈ window cell ∧ x ≠ cell ∧
          in_bounds (MinesweeperAI.height ai) (MinesweeperAI.width ai) x = true ∧
          (x ∉ MinesweeperAI.moves_made ai) ∧ (x ∉ MinesweeperAI.mines ai)) ∧
    Sentence.count s
    = (count
       - Z.of_nat (length (filter (λ x, x ≠ cell ∧
                     in_bounds (MinesweeperAI.height ai) (MinesweeperAI.width ai) x = true ∧
                     x ∈ MinesweeperAI.mines ai) (window cell))))%Z.
Proof.
  unfold MinesweeperAI.new_sentence.
  set (ai1 := MinesweeperAI.mark_safe cell (MinesweeperAI.add_move cell ai)).
  pose proof (scan_window_members ai1 cell (window cell) (∅, count)) as Hmem.
  pose proof (scan_window_count ai1 cell (window cell) (∅, count)) as Hcnt.
  remember (foldl (MinesweeperAI.scan_neighbor ai1 cell) (∅, count) (window cell))
    as acc eqn:Hacc. clear Hacc.
  exists (Sentence.mk (MinesweeperAI.next_oid ai1) acc.1 acc.2).
  split_and!.
  - done.
  - intros x. unfold Sentence.cells. rewrite Hmem.
    change (MinesweeperAI.height ai1) with (MinesweeperAI.height ai).
    change (MinesweeperAI.width ai1) with (MinesweeperAI.width ai).
    change (MinesweeperAI.mines ai1) with (MinesweeperAI.mines ai).
    change (MinesweeperAI.moves_made ai1) with ({[cell]} ∪ MinesweeperAI.moves_made ai).
    change ((∅, count).1) with (∅ : gset Cell).
    rewrite not_elem_of_union, elem_of_singleton, elem_of_empty. tauto.
  - exact Hcnt.
Qed.

Lemma list_remove_Forall (P : Sentence.t → Prop) (x : Sentence.t) (l : list Sentence.t) :
  Forall P l → Forall P (MinesweeperAI.list_remove x l).
Proof.
  induction 1 as [|y l Hy Hl IH]; simpl; [done|].
  destruct (Sentence.eqb y x); [done|]. by constructor.
Qed.

Lemma compare_pair_sound (s1 s2 : Sentence.t) (ai : MinesweeperAI.t) :
  sentence_ok g s1 → sentence_ok g s2 → sound g ai →
  sound g (MinesweeperAI.compare_pair s1 s2 ai).
Proof.
  intros [Hn1 Hb1] [Hn2 Hb2] Hai. unfold MinesweeperAI.compare_pair.
  destruct (Sentence.is_ s1 s2); [done|].
  destruct (Sentence.eqb s1 s2).
  { destruct Hai. split; simpl; try done. by apply list_remove_Forall. }
  case_bool_decide as Hsub; [|done].
  destruct (MinesweeperAI.in_knowledge _ _ ai); [done|].
  destruct Hai. split; simpl; try done.
  apply Forall_app. split; [done|]. apply Forall_singleton. split; simpl.
  - rewrite Hn1, Hn2, (size_inter_difference _ _ Hsub). lia.
  - intros c Hc. apply Hb2. set_solver.
Qed.

Lemma inner_loop_sound (fuel : nat) (s1 : Sentence.t) :
  sentence_ok g s1 →
  ∀ (j : nat) (ai ai' : MinesweeperAI.t),
    sound g ai → MinesweeperAI.inner_loop fuel s1 j ai = Some ai' → sound g ai'.
Proof.
  intros Hs1. induction fuel as [|fuel IH]; intros j ai ai' Hai; simpl; [done|].
  destruct (MinesweeperAI.knowledge ai !! j) as [s2|] eqn:Hj.
  - apply IH. apply compare_pair_sound; [done| |done]. by eapply sound_lookup.
  - by intros [= <-].
Qed.

Lemma outer_loop_sound (fuel : nat) :
  ∀ (i : nat) (ai ai' : MinesweeperAI.t),
    sound g ai → MinesweeperAI.outer_loop fuel i ai = Some ai' → sound g ai'.
Proof.
  induction fuel as [|fuel IH]; intros i ai ai' Hai; simpl; [done|].
  destruct (MinesweeperAI.knowledge ai !! i) as [s1|] eqn:Hi.
  - destruct (MinesweeperAI.inner_loop fuel s1 0 ai) as [ai1|] eqn:Hin; [|done].
    apply IH. eapply inner_loop_sound; [|exact Hai|exact Hin].
    by eapply sound_lookup.
  - by intros [= <-].
Qed.

Lemma add_knowledge_sound (fuel : nat) (cell : Cell) (count : Z)
    (ai ai' : MinesweeperAI.t) :
  valid_observation g (cell, count) → sound g ai →
  MinesweeperAI.add_knowledge fuel cell count ai = Some ai' → sound g ai'.
Proof.
  intros Hv Hai. unfold MinesweeperAI.add_knowledge, MinesweeperAI.inferences.
  apply outer_loop_sound, conclusions_sound. by apply new_sentence_sound.
Qed.

Lemma play_sound (fuel : nat) (observations : list (Cell * Z)) :
  Forall (valid_observation g) observations →
  ∀ ai ai' : MinesweeperAI.t,
    sound g ai → play fuel observations ai = Some ai' → sound g ai'.
Proof.
  induction 1 as [|[cell count] rest Hv _ IH]; intros ai ai' Hai; simpl.
  - by intros [= <-].
  - destruct (MinesweeperAI.add_knowledge fuel cell count ai) as [ai1|] eqn:Hadd; [|done].
    apply IH. by eapply add_knowledge_sound.
Qed.

End Soundness.

(** * Termination of the inference loops *)

Lemma in_bounds_board_cells (height width : Z) (c : Cell) :
  in_bounds height width c = true → c ∈ board_cells height width.
Proof.
  destruct c as [i j]. unfold in_bounds, board_cells. simpl.
  rewrite !andb_true_iff. intros [[[H1 H2] H3] H4].
  apply list_elem_of_bind. exists i. split.
  - apply list_elem_of_bind. exists j. split; [by left|].
    apply elem_of_seqZ. lia.
  - apply elem_of_seqZ. lia.
Qed.

Lemma subsets_spec (l : list Cell) (X : gset Cell) :
  (∀ x, x ∈ X → x ∈ l) → X ∈ subsets l.
Proof.
  revert X. induction l as [|x l IH]; intros X HX; simpl.
  - apply elem_of_singleton. apply set_eq. intros y. split; [|set_solver].
    intros Hy. by apply HX, elem_of_nil in Hy.
  - destruct (decide (x ∈ X)) as [Hx|Hx].
    + apply elem_of_union_r, elem_of_map. exists (X ∖ {[x]}). split.
      * apply set_eq. intros y. destruct (decide (y = x)); set_solver.
      * apply IH. intros y Hy.
        assert (y ∈ X ∧ y ≠ x) as [Hy1 Hy2] by set_solver.
        apply HX, elem_of_cons in Hy1. by destruct Hy1.
    + apply elem_of_union_l, IH. intros y Hy.
      pose proof (HX y Hy) as Hy'. apply elem_of_cons in Hy'.
      destruct Hy' as [->|]; done.
Qed.

Lemma eqb_true (s s' : Sentence.t) :
  Sentence.eqb s s' = true ↔
  Sentence.cells s = Sentence.cells s' ∧ Sentence.count s = Sentence.count s'.
Proof.
  unfold Sentence.eqb. rewrite andb_true_iff, !bool_decide_eq_true. done.
Qed.

Lemma elem_of_cell_sets (v : gset Cell) (K : list Sentence.t) :
  v ∈ cell_sets K ↔ ∃ (q : nat) (s : Sentence.t), K !! q = Some s ∧ Sentence.cells s = v.
Proof.
  unfold cell_sets. rewrite elem_of_list_to_set, list_elem_of_fmap. split.
  - intros (s & -> & Hs). apply list_elem_of_lookup in Hs as [q Hq]. eauto.
  - intros (q & s & Hq & <-). exists s. split; [done|].
    apply list_elem_of_lookup. eauto.
Qed.

(** [list.remove] takes out the first item equal to its argument, which
    is at or before any position where the argument itself is. *)
Lemma list_remove_delete (x : Sentence.t) (l : list Sentence.t) (j : nat) (y : Sentence.t) :
  l !! j = Some y → Sentence.eqb y x = true →
  ∃ (k : nat) (z : Sentence.t),
    k ≤ j ∧ l !! k = Some z ∧ Sentence.eqb z x = true ∧
    MinesweeperAI.list_remove x l = delete k l.
Proof.
  revert j. induction l as [|a l IH]; intros j Hj Hy; [done|]. simpl.
  destruct (Sentence.eqb a x) eqn:Ha.
  - exists 0, a. split_and!; [lia|done|done|done].
  - destruct j as [|j]; simpl in Hj.
    + injection Hj as ->. congruence.
    + destruct (IH j Hj Hy) as (k & z & Hk & Hz & Hzx & Heq).
      exists (S k), z. split_and!; [lia|done|done|]. simpl. by rewrite Heq.
Qed.

Lemma drop_S_delete (l : list Sentence.t) (k j : nat) :
  k ≤ j → drop (S j) (delete k l) = drop (S (S j)) l.
Proof.
  revert k j. induction l as [|a l IH]; intros k j Hk; [done|].
  destruct k as [|k]; simpl; [done|].
  destruct j as [|j]; [lia|]. apply (IH k j). lia.
Qed.

Lemma todo_lookup (s1 s2 : Sentence.t) (j : nat) (K : list Sentence.t) :
  K !! j = Some s2 → todo s1 j K = weight s1 s2 + todo s1 (S j) K.
Proof.
  intros Hj. unfold todo. by rewrite (drop_S _ _ _ Hj).
Qed.

Lemma todo_S_le (s1 : Sentence.t) (j : nat) (K : list Sentence.t) :
  todo s1 (S j) K ≤ todo s1 j K.
Proof.
  destruct (K !! j) as [s2|] eqn:Hj.
  - rewrite (todo_lookup _ _ _ _ Hj). lia.
  - unfold todo. apply lookup_ge_None in Hj.
    rewrite !drop_ge by lia. done.
Qed.

Lemma weight_pos (s1 s : Sentence.t) : 1 ≤ weight s1 s.
Proof. unfold weight. case_bool_decide; lia. Qed.

Lemma todo_bound (s1 : Sentence.t) (K : list Sentence.t) :
  todo s1 0 K ≤ 2 * length K.
Proof.
  unfold todo. rewrite drop_0. induction K as [|s K IH]; simpl; [lia|].
  unfold weight at 1. case_bool_decide; lia.
Qed.

Section Termination.

Variable g : Minesweeper.t.

(** On a board, a true sentence is determined by its cells. *)
Lemma sentence_ok_count (s s' : Sentence.t) :
  sentence_ok g s → sentence_ok g s' →
  Sentence.cells s = Sentence.cells s' → Sentence.count s = Sentence.count s'.
Proof. intros [H1 _] [H2 _] Hc. by rewrite H1, H2, Hc. Qed.

Lemma in_knowledge_false (cells : gset Cell) (count : Z) (ai : MinesweeperAI.t)
    (q : nat) (s : Sentence.t) :
  MinesweeperAI.in_knowledge cells count ai = false →
  MinesweeperAI.knowledge ai !! q = Some s →
  Sentence.cells s = cells → Sentence.count s = count → False.
Proof.
  unfold MinesweeperAI.in_knowledge. intros Hin Hq Hc Hn.
  assert (existsb (λ y, Sentence.eqb y (Sentence.mk (MinesweeperAI.next_oid ai) cells count))
                  (MinesweeperAI.knowledge ai) = true) as Htrue; [|congruence].
  apply existsb_exists. exists s. split.
  - apply list_elem_of_In, list_elem_of_lookup. eauto.
  - by apply eqb_true.
Qed.

Lemma cells_in_subsets (ai : MinesweeperAI.t) (s : Sentence.t) :
  sound g ai → sentence_ok g s →
  Sentence.cells s
  ∈ subsets (board_cells (MinesweeperAI.height ai) (MinesweeperAI.width ai)).
Proof.
  intros Hai [_ Hb]. apply subsets_spec. intros x Hx.
  rewrite (sound_height _ _ Hai), (sound_width _ _ Hai).
  by apply in_bounds_board_cells, Hb.
Qed.

(** One step of the inner loop: the copy of [s1] stays in the list, the
    work left goes down, the potential does not go up. *)
Lemma compare_pair_step (s1 s2 : Sentence.t) (j : nat) (ai : MinesweeperAI.t) :
  sound g ai → sentence_ok g s1 →
  present s1 j (MinesweeperAI.knowledge ai) →
  MinesweeperAI.knowledge ai !! j = Some s2 →
  present s1 (S j) (MinesweeperAI.knowledge (MinesweeperAI.compare_pair s1 s2 ai)) ∧
  todo s1 (S j) (MinesweeperAI.knowledge (MinesweeperAI.compare_pair s1 s2 ai))
    < todo s1 j (MinesweeperAI.knowledge ai) ∧
  potential (MinesweeperAI.compare_pair s1 s2 ai) ≤ potential ai ∧
  cell_sets (MinesweeperAI.knowledge ai)
    ⊆ cell_sets (MinesweeperAI.knowledge (MinesweeperAI.compare_pair s1 s2 ai)).
Proof.
  intros Hai Hs1 Hpres Hj.
  pose proof (sound_lookup g _ _ _ Hai Hj) as Hs2.
  assert (present s1 (S j) (MinesweeperAI.knowledge ai) ∧
          todo s1 (S j) (MinesweeperAI.knowledge ai)
            < todo s1 j (MinesweeperAI.knowledge ai) ∧
          potential ai ≤ potential ai ∧
          cell_sets (MinesweeperAI.knowledge ai)
            ⊆ cell_sets (MinesweeperAI.knowledge ai)) as Hkeep.
  { split_and!; [| |done|done].
    - destruct Hpres as (p & s & Hp & He & Ho). exists p, s.
      split_and!; [done|done|]. destruct Ho; [by left|right; lia].
    - rewrite (todo_lookup _ _ _ _ Hj). pose proof (weight_pos s1 s2). lia. }
  unfold MinesweeperAI.compare_pair.
  destruct (Sentence.is_ s1 s2) eqn:His; [exact Hkeep|].
  apply bool_decide_eq_false in His.
  destruct (Sentence.eqb s1 s2) eqn:Heq.
  - (* a duplicate: [self.knowledge.remove(sentence_two)] *)
    apply eqb_true in Heq as [Hc12 Hn12].
    destruct (list_remove_delete s2 _ j s2 Hj) as (k & z & Hk & Hz & Hzs & Hrem).
    { by apply eqb_true. }
    apply eqb_true in Hzs as [Hcz Hnz].
    unfold potential, MinesweeperAI.remove_sentence,
      MinesweeperAI.knowledge, MinesweeperAI.height, MinesweeperAI.width.
    fold (MinesweeperAI.knowledge ai) (MinesweeperAI.height ai) (MinesweeperAI.width ai).
    rewrite Hrem.
    assert (present s1 (S j) (delete k (MinesweeperAI.knowledge ai))) as Hpres'.
    { destruct (decide (k = j)) as [->|Hkj].
      - destruct Hpres as (p & s & Hp & He & Ho).
        destruct (decide (p < j)) as [Hpj|Hpj].
        + exists p, s. split_and!; [|done|right; lia].
          by rewrite list_lookup_delete_lt.
        + destruct Ho as [Ho|Ho]; [|lia].
          assert (p ≠ j) as Hne by (intros ->; congruence).
          exists (p - 1), s. split_and!; [|done|by left].
          rewrite list_lookup_delete_ge by lia.
          by replace (S (p - 1)) with p by lia.
      - exists (j - 1), s2. split_and!; [| |right; lia].
        + rewrite list_lookup_delete_ge by lia.
          by replace (S (j - 1)) with j by lia.
        + by apply eqb_true. }
    assert (cell_sets (MinesweeperAI.knowledge ai)
            ⊆ cell_sets (delete k (MinesweeperAI.knowledge ai))) as Hcs.
    { intros v (q & s & Hq & Hv)%elem_of_cell_sets. apply elem_of_cell_sets.
      destruct (decide (q < k)) as [Hqk|Hqk].
      { exists q, s. by rewrite list_lookup_delete_lt. }
      destruct (decide (q = k)) as [->|Hne].
      { destruct Hpres' as (p' & s' & Hp' & [Hc' _]%eqb_true & _).
        exists p', s'. split; [done|]. congruence. }
      exists (q - 1), s. split; [|done].
      rewrite list_lookup_delete_ge by lia.
      by replace (S (q - 1)) with q by lia. }
    split_and!; [done| | |done].
    + pose proof (todo_S_le s1 (S j) (MinesweeperAI.knowledge ai)) as Hle.
      pose proof (todo_lookup s1 s2 j _ Hj) as Hdec.
      pose proof (weight_pos s1 s2).
      unfold todo in *. rewrite drop_S_delete by done. lia.
    + rewrite length_delete by eauto.
      assert (0 < length (MinesweeperAI.knowledge ai))
        by (apply lookup_lt_Some in Hj; lia).
      assert (unseen (MinesweeperAI.height ai) (MinesweeperAI.width ai)
                     (delete k (MinesweeperAI.knowledge ai))
              ≤ unseen (MinesweeperAI.height ai) (MinesweeperAI.width ai)
                       (MinesweeperAI.knowledge ai)); [|lia].
      apply subseteq_size. by apply difference_mono_l.
  - case_bool_decide as Hsub; [|exact Hkeep].
    destruct (MinesweeperAI.in_knowledge _ _ ai) eqn:Hin; [exact Hkeep|].
    (* a new sentence: [self.knowledge.append(update_sentence)] *)
    unfold potential, MinesweeperAI.append_sentence,
      MinesweeperAI.knowledge, MinesweeperAI.height, MinesweeperAI.width.
    fold (MinesweeperAI.knowledge ai) (MinesweeperAI.height ai) (MinesweeperAI.width ai).
    set (u := Sentence.mk (MinesweeperAI.next_oid ai)
                (Sentence.cells s2 ∖ Sentence.cells s1)
                (Sentence.count s2 - Sentence.count s1)).
    assert (sentence_ok g u) as Hu.
    { destruct Hs1 as [Hn1 Hb1], Hs2 as [Hn2 Hb2]. split; simpl.
      - rewrite Hn1, Hn2, (size_inter_difference g _ _ Hsub). lia.
      - intros c Hc. apply Hb2. set_solver. }
    pose proof (lookup_lt_Some _ _ _ Hj) as Hlen.
    split_and!.
    + destruct Hpres as (p & s & Hp & He & Ho). exists p, s.
      split_and!; [|done|destruct Ho; [by left|right; lia]].
      by apply lookup_app_l_Some.
    + rewrite (todo_lookup _ _ _ _ Hj). unfold todo.
      rewrite drop_app_le by lia. rewrite sum_list_with_app. simpl.
      assert (weight s1 s2 = 2) as -> by (unfold weight; by rewrite bool_decide_eq_true_2).
      assert (weight s1 u = 1) as ->; [|lia].
      unfold weight. case_bool_decide as Hb; [exfalso|done]. simpl in Hb.
      assert (Sentence.cells s1 = ∅) as He1 by set_solver.
      assert (Sentence.count s1 = 0%Z) as Hn1.
      { destruct Hs1 as [-> _]. rewrite He1.
        assert ((∅ : gset Cell) ∩ Minesweeper.mines g = ∅) as -> by set_solver.
        by rewrite size_empty. }
      apply (in_knowledge_false _ _ _ _ _ Hin Hj); [set_solver|lia].
    + rewrite length_app. simpl.
      assert (S (unseen (MinesweeperAI.height ai) (MinesweeperAI.width ai)
                        (MinesweeperAI.knowledge ai ++ [u]))
              = unseen (MinesweeperAI.height ai) (MinesweeperAI.width ai)
                       (MinesweeperAI.knowledge ai)); [|lia].
      unfold unseen, cell_sets. rewrite fmap_app.
      change (Sentence.cells <$> [u]) with [Sentence.cells u].
      rewrite list_to_set_snoc_L.
      fold (cell_sets (MinesweeperAI.knowledge ai)).
      assert (Sentence.cells u
              ∈ subsets (board_cells (MinesweeperAI.height ai) (MinesweeperAI.width ai)))
        as HuU by (by apply cells_in_subsets).
      assert (Sentence.cells u ∉ cell_sets (MinesweeperAI.knowledge ai)) as HuCS.
      { intros (q & s & Hq & Hv)%elem_of_cell_sets.
        apply (in_knowledge_false _ _ _ _ _ Hin Hq Hv).
        apply (sentence_ok_count s u); [by eapply sound_lookup|done|done]. }
      revert HuU HuCS.
      generalize (subsets (board_cells (MinesweeperAI.height ai) (MinesweeperAI.width ai))).
      generalize (cell_sets (MinesweeperAI.knowledge ai)).
      generalize (Sentence.cells u).
      intros c CS U HuU HuCS.
      assert (U ∖ CS = {[c]} ∪ U ∖ (CS ∪ {[c]})) as ->.
      { apply set_eq. intros x. destruct (decide (x = c)); set_solver. }
      rewrite (size_union {[c]} (U ∖ (CS ∪ {[c]}))) by set_solver.
      by rewrite size_singleton.
    + unfold cell_sets. rewrite fmap_app, list_to_set_app_L.
      apply union_subseteq_l.
Qed.

(** The inner loop returns when its fuel exceeds the work left. *)
Lemma inner_loop_terminates (s1 : Sentence.t) (fuel : nat) :
  sentence_ok g s1 →
  ∀ (j : nat) (ai : MinesweeperAI.t),
    sound g ai → present s1 j (MinesweeperAI.knowledge ai) →
    todo s1 j (MinesweeperAI.knowledge ai) < fuel →
    ∃ ai', MinesweeperAI.inner_loop fuel s1 j ai = Some ai' ∧
           sound g ai' ∧ potential ai' ≤ potential ai.
Proof.
  intros Hs1. induction fuel as [|fuel IH]; intros j ai Hai Hpres Hfuel; [lia|].
  simpl. destruct (MinesweeperAI.knowledge ai !! j) as [s2|] eqn:Hj; [|by eauto].
  destruct (compare_pair_step s1 s2 j ai Hai Hs1 Hpres Hj)
    as (Hpres' & Htodo & Hpot & _).
  destruct (IH (S j) (MinesweeperAI.compare_pair s1 s2 ai)) as (ai' & Hrun & Hai' & Hpot').
  - apply compare_pair_sound; [done| |done]. by eapply sound_lookup.
  - done.
  - lia.
  - exists ai'. split_and!; [done|done|lia].
Qed.

Lemma length_le_potential (ai : MinesweeperAI.t) :
  length (MinesweeperAI.knowledge ai) ≤ potential ai.
Proof. unfold potential. lia. Qed.

(** The outer loop returns: its index goes up and the length of the list
    stays under the potential, which does not go up. *)
Lemma outer_loop_terminates (fuel : nat) :
  ∀ (n i : nat) (ai : MinesweeperAI.t),
    sound g ai →
    potential ai + 1 ≤ n + i →
    2 * potential ai + 1 + n ≤ fuel →
    ∃ ai', MinesweeperAI.outer_loop fuel i ai = Some ai' ∧ sound g ai'.
Proof.
  induction fuel as [|fuel IH]; intros n i ai Hai Hn Hfuel; [lia|].
  simpl. destruct (MinesweeperAI.knowledge ai !! i) as [s1|] eqn:Hi; [|by eauto].
  pose proof (lookup_lt_Some _ _ _ Hi) as Hlen.
  pose proof (length_le_potential ai) as Hpot.
  pose proof (todo_bound s1 (MinesweeperAI.knowledge ai)) as Htodo.
  destruct (inner_loop_terminates s1 fuel (sound_lookup g _ _ _ Hai Hi) 0 ai Hai)
    as (ai1 & Hrun & Hai1 & Hpot1).
  - exists i, s1. split_and!; [done| |by left].
    apply eqb_true. done.
  - lia.
  - rewrite Hrun. apply (IH (n - 1)); [done|lia|lia].
Qed.

(** More fuel does not change a result. *)
Lemma inner_loop_mono (s1 : Sentence.t) (fuel fuel' : nat) :
  fuel ≤ fuel' →
  ∀ (j : nat) (ai ai' : MinesweeperAI.t),
    MinesweeperAI.inner_loop fuel s1 j ai = Some ai' →
    MinesweeperAI.inner_loop fuel' s1 j ai = Some ai'.
Proof.
  revert fuel'. induction fuel as [|fuel IH]; intros fuel' Hle j ai ai'; [done|].
  destruct fuel' as [|fuel']; [lia|]. simpl.
  destruct (MinesweeperAI.knowledge ai !! j); [|done]. apply IH. lia.
Qed.

Lemma outer_loop_mono (fuel fuel' : nat) :
  fuel ≤ fuel' →
  ∀ (i : nat) (ai ai' : MinesweeperAI.t),
    MinesweeperAI.outer_loop fuel i ai = Some ai' →
    MinesweeperAI.outer_loop fuel' i ai = Some ai'.
Proof.
  revert fuel'. induction fuel as [|fuel IH]; intros fuel' Hle i ai ai'; [done|].
  destruct fuel' as [|fuel']; [lia|]. simpl.
  destruct (MinesweeperAI.knowledge ai !! i) as [s1|]; [|done].
  destruct (MinesweeperAI.inner_loop fuel s1 0 ai) as [ai1|] eqn:Hin; [|done].
  rewrite (inner_loop_mono s1 fuel fuel' ltac:(lia) _ _ _ Hin). apply IH. lia.
Qed.

Lemma add_knowledge_mono (fuel fuel' : nat) (cell : Cell) (count : Z)
    (ai ai' : MinesweeperAI.t) :
  fuel ≤ fuel' →
  MinesweeperAI.add_knowledge fuel cell count ai = Some ai' →
  MinesweeperAI.add_knowledge fuel' cell count ai = Some ai'.
Proof. intros Hle. by apply outer_loop_mono. Qed.

Lemma play_mono (fuel fuel' : nat) (observations : list (Cell * Z)) :
  fuel ≤ fuel' →
  ∀ ai ai' : MinesweeperAI.t,
    play fuel observations ai = Some ai' → play fuel' observations ai = Some ai'.
Proof.
  intros Hle. induction observations as [|[cell count] rest IH]; intros ai ai'; simpl; [done|].
  destruct (MinesweeperAI.add_knowledge fuel cell count ai) as [ai1|] eqn:Hadd; [|done].
  rewrite (add_knowledge_mono _ _ _ _ _ _ Hle Hadd). apply IH.
Qed.

Lemma inferences_terminates (fuel : nat) (ai : MinesweeperAI.t) :
  sound g ai → enough_fuel ai ≤ fuel →
  ∃ ai', MinesweeperAI.inferences fuel ai = Some ai' ∧ sound g ai'.
Proof.
  intros Hai Hfuel. unfold enough_fuel in Hfuel.
  apply (outer_loop_terminates fuel (potential ai + 1) 0 ai Hai); lia.
Qed.

Lemma add_knowledge_terminates (cell : Cell) (count : Z) (ai : MinesweeperAI.t) :
  valid_observation g (cell, count) → sound g ai →
  ∃ (fuel : nat) (ai' : MinesweeperAI.t),
    MinesweeperAI.add_knowledge fuel cell count ai = Some ai' ∧ sound g ai'.
Proof.
  intros Hv Hai.
  set (ai1 := MinesweeperAI.conclusions (MinesweeperAI.new_sentence cell count ai)).
  assert (sound g ai1) as Hai1
    by (by apply conclusions_sound, new_sentence_sound).
  destruct (inferences_terminates (enough_fuel ai1) ai1 Hai1) as (ai' & Hrun & Hai'); [done|].
  by exists (enough_fuel ai1), ai'.
Qed.

Lemma play_terminates (observations : list (Cell * Z)) :
  Forall (valid_observation g) observations →
  ∀ ai : MinesweeperAI.t,
    sound g ai →
    ∃ (fuel : nat) (ai' : MinesweeperAI.t),
      play fuel observations ai = Some ai' ∧ sound g ai'.
Proof.
  induction 1 as [|[cell count] rest Hv _ IH]; intros ai Hai.
  - by exists 0, ai.
  - destruct (add_knowledge_terminates cell count ai Hv Hai) as (f1 & ai1 & Hadd & Hai1).
    destruct (IH ai1 Hai1) as (f2 & ai' & Hplay & Hai').
    exists (f1 `max` f2), ai'. split; [|done]. simpl.
    rewrite (add_knowledge_mono f1 (f1 `max` f2) _ _ _ _ ltac:(lia) Hadd).
    apply (play_mono f2); [lia|done].
Qed.

End Termination.

(** * The three sets of cells only grow *)

Lemma grows_refl (ai : MinesweeperAI.t) : grows ai ai.
Proof. by unfold grows. Qed.

Lemma grows_trans (ai1 ai2 ai3 : MinesweeperAI.t) :
  grows ai1 ai2 → grows ai2 ai3 → grows ai1 ai3.
Proof. unfold grows. intros (? & ? & ?) (? & ? & ?). split_and!; by etrans. Qed.

Lemma mark_safe_grows (c : Cell) (ai : MinesweeperAI.t) :
  grows ai (MinesweeperAI.mark_safe c ai).
Proof. unfold grows. simpl. split_and!; [done| |done]. apply union_subseteq_r. Qed.

Lemma mark_mine_grows (c : Cell) (ai : MinesweeperAI.t) :
  grows ai (MinesweeperAI.mark_mine c ai).
Proof. unfold grows. simpl. split_and!; [done|done|]. apply union_subseteq_r. Qed.

Lemma foldl_grows (f : MinesweeperAI.t → Cell → MinesweeperAI.t) (l : list Cell) :
  (∀ ai c, grows ai (f ai c)) → ∀ ai, grows ai (foldl f ai l).
Proof.
  intros Hf. induction l as [|c l IH]; intros ai; simpl; [apply grows_refl|].
  eapply grows_trans; [apply Hf|apply IH].
Qed.

Lemma conclude_grows (ai : MinesweeperAI.t) (i : nat) :
  grows ai (MinesweeperAI.conclude ai i).
Proof.
  unfold MinesweeperAI.conclude.
  destruct (MinesweeperAI.knowledge ai !! i) as [s|]; [|apply grows_refl].
  set (ai1 := match Sentence.known_safes s with
              | Some cs => MinesweeperAI.mark_all_safe cs ai
              | None => ai end).
  assert (grows ai ai1) as H1.
  { subst ai1. destruct (Sentence.known_safes s); [|apply grows_refl].
    apply foldl_grows. intros a c. apply mark_safe_grows. }
  destruct (MinesweeperAI.knowledge ai1 !! i) as [s'|]; [|done].
  destruct (Sentence.known_mines s'); [|done].
  eapply grows_trans; [exact H1|].
  apply foldl_grows. intros a c. apply mark_mine_grows.
Qed.

Lemma conclusions_grows (ai : MinesweeperAI.t) :
  grows ai (MinesweeperAI.conclusions ai).
Proof.
  unfold MinesweeperAI.conclusions.
  generalize (seq 0 (length (MinesweeperAI.knowledge ai))). intros l.
  revert ai. induction l as [|i l IH]; intros ai; simpl; [apply grows_refl|].
  eapply grows_trans; [apply conclude_grows|apply IH].
Qed.

Lemma new_sentence_grows (cell : Cell) (count : Z) (ai : MinesweeperAI.t) :
  grows ai (MinesweeperAI.new_sentence cell count ai).
Proof.
  unfold grows, MinesweeperAI.new_sentence, MinesweeperAI.append_sentence,
    MinesweeperAI.moves_made, MinesweeperAI.safes, MinesweeperAI.mines,
    MinesweeperAI.mark_safe, MinesweeperAI.add_move.
  split_and!; [apply union_subseteq_r|apply union_subseteq_r|done].
Qed.

Lemma compare_pair_grows (s1 s2 : Sentence.t) (ai : MinesweeperAI.t) :
  grows ai (MinesweeperAI.compare_pair s1 s2 ai).
Proof.
  unfold MinesweeperAI.compare_pair.
  repeat (match goal with |- context [if ?b then _ else _] => destruct b end);
    unfold grows; simpl; done.
Qed.

Lemma inner_loop_grows (fuel : nat) (s1 : Sentence.t) :
  ∀ (j : nat) (ai ai' : MinesweeperAI.t),
    MinesweeperAI.inner_loop fuel s1 j ai = Some ai' → grows ai ai'.
Proof.
  induction fuel as [|fuel IH]; intros j ai ai'; simpl; [done|].
  destruct (MinesweeperAI.knowledge ai !! j) as [s2|].
  - intros Hrun. eapply grows_trans; [apply (compare_pair_grows s1 s2)|by eapply IH].
  - intros [= <-]. apply grows_refl.
Qed.

Lemma outer_loop_grows (fuel : nat) :
  ∀ (i : nat) (ai ai' : MinesweeperAI.t),
    MinesweeperAI.outer_loop fuel i ai = Some ai' → grows ai ai'.
Proof.
  induction fuel as [|fuel IH]; intros i ai ai'; simpl; [done|].
  destruct (MinesweeperAI.knowledge ai !! i) as [s1|].
  - destruct (MinesweeperAI.inner_loop fuel s1 0 ai) as [ai1|] eqn:Hin; [|done].
    intros Hrun. eapply grows_trans; [by eapply inner_loop_grows|by eapply IH].
  - intros [= <-]. apply grows_refl.
Qed.

Lemma add_knowledge_grows (fuel : nat) (cell : Cell) (count : Z)
    (ai ai' : MinesweeperAI.t) :
  MinesweeperAI.add_knowledge fuel cell count ai = Some ai' → grows ai ai'.
Proof.
  unfold MinesweeperAI.add_knowledge, MinesweeperAI.inferences. intros Hrun.
  eapply grows_trans; [apply new_sentence_grows|].
  eapply grows_trans; [apply conclusions_grows|by eapply outer_loop_grows].
Qed.

(** Only step 1 of [add_knowledge] writes [moves_made]. *)
Lemma foldl_moves_made (f : MinesweeperAI.t → Cell → MinesweeperAI.t) (l : list Cell) :
  (∀ ai c, MinesweeperAI.moves_made (f ai c) = MinesweeperAI.moves_made ai) →
  ∀ ai, MinesweeperAI.moves_made (foldl f ai l) = MinesweeperAI.moves_made ai.
Proof.
  intros Hf. induction l as [|c l IH]; intros ai; simpl; [done|].
  by rewrite IH, Hf.
Qed.

Lemma conclude_moves_made (ai : MinesweeperAI.t) (i : nat) :
  MinesweeperAI.moves_made (MinesweeperAI.conclude ai i) = MinesweeperAI.moves_made ai.
Proof.
  unfold MinesweeperAI.conclude.
  destruct (MinesweeperAI.knowledge ai !! i) as [s|]; [|done].
  set (ai1 := match Sentence.known_safes s with
              | Some cs => MinesweeperAI.mark_all_safe cs ai
              | None => ai end).
  assert (MinesweeperAI.moves_made ai1 = MinesweeperAI.moves_made ai) as H1.
  { subst ai1. destruct (Sentence.known_safes s); [|done]. by apply foldl_moves_made. }
  destruct (MinesweeperAI.knowledge ai1 !! i) as [s'|]; [|done].
  destruct (Sentence.known_mines s'); [|done].
  rewrite <- H1. by apply foldl_moves_made.
Qed.

Lemma conclusions_moves_made (ai : MinesweeperAI.t) :
  MinesweeperAI.moves_made (MinesweeperAI.conclusions ai) = MinesweeperAI.moves_made ai.
Proof.
  unfold MinesweeperAI.conclusions.
  generalize (seq 0 (length (MinesweeperAI.knowledge ai))). intros l.
  revert ai. induction l as [|i l IH]; intros ai; simpl; [done|].
  by rewrite IH, conclude_moves_made.
Qed.

Lemma compare_pair_moves_made (s1 s2 : Sentence.t) (ai : MinesweeperAI.t) :
  MinesweeperAI.moves_made (MinesweeperAI.compare_pair s1 s2 ai)
  = MinesweeperAI.moves_made ai.
Proof.
  unfold MinesweeperAI.compare_pair.
  repeat (match goal with |- context [if ?b then _ else _] => destruct b end); done.
Qed.

Lemma inner_loop_moves_made (fuel : nat) (s1 : Sentence.t) :
  ∀ (j : nat) (ai ai' : MinesweeperAI.t),
    MinesweeperAI.inner_loop fuel s1 j ai = Some ai' →
    MinesweeperAI.moves_made ai' = MinesweeperAI.moves_made ai.
Proof.
  induction fuel as [|fuel IH]; intros j ai ai'; simpl; [done|].
  destruct (MinesweeperAI.knowledge ai !! j) as [s2|].
  - intros Hrun. by rewrite (IH _ _ _ Hrun), compare_pair_moves_made.
  - by intros [= <-].
Qed.

Lemma outer_loop_moves_made (fuel : nat) :
  ∀ (i : nat) (ai ai' : MinesweeperAI.t),
    MinesweeperAI.outer_loop fuel i ai = Some ai' →
    MinesweeperAI.moves_made ai' = MinesweeperAI.moves_made ai.
Proof.
  induction fuel as [|fuel IH]; intros i ai ai'; simpl; [done|].
  destruct (MinesweeperAI.knowledge ai !! i) as [s1|].
  - destruct (MinesweeperAI.inner_loop fuel s1 0 ai) as [ai1|] eqn:Hin; [|done].
    intros Hrun. by rewrite (IH _ _ _ Hrun), (inner_loop_moves_made _ _ _ _ _ Hin).
  - by intros [= <-].
Qed.

Lemma add_knowledge_moves_made (fuel : nat) (cell : Cell) (count : Z)
    (ai ai' : MinesweeperAI.t) :
  MinesweeperAI.add_knowledge fuel cell count ai = Some ai' →
  MinesweeperAI.moves_made ai' = {[cell]} ∪ MinesweeperAI.moves_made ai.
Proof.
  unfold MinesweeperAI.add_knowledge, MinesweeperAI.inferences. intros Hrun.
  by rewrite (outer_loop_moves_made _ _ _ _ Hrun), conclusions_moves_made.
Qed.

(** * Sentences are narrowed, never purged *)








Section Retention.

Variable g : Minesweeper.t.

Lemma inner_loop_cell_sets (fuel : nat) (s1 : Sentence.t) :
  sentence_ok g s1 →
  ∀ (j : nat) (ai ai' : MinesweeperAI.t),
    sound g ai → present s1 j (MinesweeperAI.knowledge ai) →
    MinesweeperAI.inner_loop fuel s1 j ai = Some ai' →
    cell_sets (MinesweeperAI.knowledge ai) ⊆ cell_sets (MinesweeperAI.knowledge ai').
Proof.
  intros Hs1. induction fuel as [|fuel IH]; intros j ai ai' Hai Hpres; simpl; [done|].
  destruct (MinesweeperAI.knowledge ai !! j) as [s2|] eqn:Hj; [|by intros [= <-]].
  destruct (compare_pair_step g s1 s2 j ai Hai Hs1 Hpres Hj) as (Hpres' & _ & _ & Hcs).
  intros Hrun. etrans; [exact Hcs|].
  eapply IH; [|exact Hpres'|exact Hrun].
  apply compare_pair_sound; [done| |done]. by eapply sound_lookup.
Qed.

Lemma outer_loop_cell_sets (fuel : nat) :
  ∀ (i : nat) (ai ai' : MinesweeperAI.t),
    sound g ai →
    MinesweeperAI.outer_loop fuel i ai = Some ai' →
    cell_sets (MinesweeperAI.knowledge ai) ⊆ cell_sets (MinesweeperAI.knowledge ai').
Proof.
  induction fuel as [|fuel IH]; intros i ai ai' Hai; simpl; [done|].
  destruct (MinesweeperAI.knowledge ai !! i) as [s1|] eqn:Hi; [|by intros [= <-]].
  destruct (MinesweeperAI.inner_loop fuel s1 0 ai) as [ai1|] eqn:Hin; [|done].
  pose proof (sound_lookup g _ _ _ Hai Hi) as Hs1.
  intros Hrun. etrans.
  - eapply (inner_loop_cell_sets fuel s1 Hs1 0 ai ai1 Hai); [|exact Hin].
    exists i, s1. split_and!; [done| |by left]. by apply eqb_true.
  - eapply IH; [|exact Hrun]. by eapply inner_loop_sound.
Qed.


End Retention.

(** * The games of the examples *)

Ltac valid_game :=
  repeat (apply Forall_cons; split; [split_and!; vm_compute; reflexivity|]);
  apply Forall_nil_2.

Lemma game_A_valid : Forall (valid_observation board_A) game_A.
Proof. valid_game. Qed.

Lemma game_A_plays :
  play 10 game_A (MinesweeperAI.init 1 5) = Some state_A.
Proof. vm_compute. reflexivity. Qed.


Lemma game_E_plays :
  play 10 game_E (MinesweeperAI.init 3 3) = Some state_E.
Proof. vm_compute. reflexivity. Qed.

(** * The claims of the specification *)

(** C1 — the new sentence of [add_knowledge] is said to leave out every
    neighbour already known to be safe. On [board_B], after the cell
    [(0,0)] was observed with count 0, the cell [(0,1)] is known to be
    safe but was not played; observing [(0,2)] with count 1 then builds
    the sentence [{(0,1), (0,3)} = 1], which holds that safe cell, and the
    sentence is still so when the call returns: the loop tests
    [moves_made] where its comment speaks of the cells marked safe. *)
Theorem C1_known_safe_neighbor_enters_sentence :
  Forall (valid_observation board_B) [((0, 0)%Z, 0%Z); ((0, 2)%Z, 1%Z)] ∧
  play 10 [((0, 0)%Z, 0%Z)] (MinesweeperAI.init 1 4) = Some state_B ∧
  (0, 1)%Z ∈ MinesweeperAI.safes state_B ∧
  MinesweeperAI.knowledge (MinesweeperAI.new_sentence (0, 2)%Z 1 state_B)
  = [Sentence.mk 0 ∅ 0; Sentence.mk 1 {[ (0, 1)%Z; (0, 3)%Z ]} 1] ∧
  (MinesweeperAI.knowledge
     <$> MinesweeperAI.add_knowledge 10 (0, 2)%Z 1 state_B)
  = Some [Sentence.mk 0 ∅ 0; Sentence.mk 1 {[ (0, 1)%Z; (0, 3)%Z ]} 1].
Proof.
  split_and!.
  - valid_game.
  - vm_compute. reflexivity.
  - vm_compute. reflexivity.
  - vm_compute. reflexivity.
  - vm_compute. reflexivity.
Qed.

(** C2 — after [add_knowledge] returns the knowledge base is said to be
    at a fixed point of steps 4 and 5. On [board_A], after the game
    [game_A] the list holds the sentence [{(0,3)} = 0], and running step 4
    once more marks [(0,3)] safe: the call made one pass of each step. *)
Theorem C2_one_pass_is_not_a_fixed_point :
  Forall (valid_observation board_A) game_A ∧
  play 10 game_A (MinesweeperAI.init 1 5) = Some state_A ∧
  ((0, 3)%Z ∉ MinesweeperAI.safes state_A) ∧
  MinesweeperAI.conclusions state_A
  = MinesweeperAI.mk 1 5
      {[ (0, 2)%Z; (0, 0)%Z ]} {[ (0, 1)%Z ]} {[ (0, 3)%Z; (0, 2)%Z; (0, 0)%Z ]}
      [Sentence.mk 0 ∅ 0; Sentence.mk 1 ∅ 0] 2 ∧
  MinesweeperAI.conclusions state_A ≠ state_A.
Proof.
  split_and!.
  - exact game_A_valid.
  - exact game_A_plays.
  - vm_compute. intros H. discriminate H.
  - vm_compute. reflexivity.
  - intros H. apply (f_equal MinesweeperAI.knowledge) in H.
    vm_compute in H. discriminate H.
Qed.




(** C4 — in every state reached from the initial one by valid
    observations, no cell is at once in [safes] and in [mines]. *)
Theorem C4_safes_and_mines_disjoint (g : Minesweeper.t) (fuel : nat)
    (observations : list (Cell * Z)) (ai : MinesweeperAI.t) :
  Forall (valid_observation g) observations →
  play fuel observations
       (MinesweeperAI.init (Minesweeper.height g) (Minesweeper.width g)) = Some ai →
  ∀ x : Cell, ¬ (x ∈ MinesweeperAI.safes ai ∧ x ∈ MinesweeperAI.mines ai).
Proof.
  intros Hvalid Hplay x [Hs Hm].
  assert (sound g ai) as Hai.
  { eapply play_sound; [exact Hvalid|apply sound_init|exact Hplay]. }
  pose proof (sound_safes g ai Hai) as Hdisj.
  pose proof (sound_mines g ai Hai) as Hsub.
  apply (Hdisj x Hs). by apply Hsub.
Qed.

Lemma C4_safes_and_mines_disjoint_witness :
  Forall (valid_observation board_A) game_A ∧
  play 10 game_A (MinesweeperAI.init 1 5) = Some state_A ∧
  ∀ x : Cell, ¬ (x ∈ MinesweeperAI.safes state_A ∧ x ∈ MinesweeperAI.mines state_A).
Proof.
  split; [valid_game|].
  split; [vm_compute; reflexivity|].
  apply (C4_safes_and_mines_disjoint board_A 10 game_A state_A).
  - valid_game.
  - vm_compute. reflexivity.
Defined.

Lemma sentence_ok_within_bounds (g : Minesweeper.t) (s : Sentence.t) :
  sentence_ok g s → within_bounds s.
Proof.
  intros [Hn _]. unfold within_bounds. rewrite Hn.
  assert (size (Sentence.cells s ∩ Minesweeper.mines g) ≤ size (Sentence.cells s)).
  { apply subseteq_size. set_solver. }
  lia.
Qed.

Lemma sound_within_bounds (g : Minesweeper.t) (ai : MinesweeperAI.t) :
  sound g ai → Forall within_bounds (MinesweeperAI.knowledge ai).
Proof.
  intros Hai. eapply Forall_impl; [apply (sound_knowledge g ai Hai)|].
  apply sentence_ok_within_bounds.
Qed.

(** C5 — in every state reached from the initial one by valid
    observations every sentence of the list has [0 <= count <= |cells|];
    so it is again after the knowledge base propagates, with [mark_safe]
    or [mark_mine], a cell that one of its sentences yields through
    [known_safes] or [known_mines]; and so it is, during a further valid
    call of [add_knowledge], after step 3 and after each sentence that
    step 4 has gone through. *)
Theorem C5_sentences_within_bounds (g : Minesweeper.t) (fuel : nat)
    (observations : list (Cell * Z)) (ai : MinesweeperAI.t) :
  Forall (valid_observation g) observations →
  play fuel observations
       (MinesweeperAI.init (Minesweeper.height g) (Minesweeper.width g)) = Some ai →
  Forall within_bounds (MinesweeperAI.knowledge ai) ∧
  (∀ (i : nat) (s : Sentence.t) (cs : gset Cell) (c : Cell),
     MinesweeperAI.knowledge ai !! i = Some s →
     Sentence.known_safes s = Some cs → c ∈ cs →
     Forall within_bounds (MinesweeperAI.knowledge (MinesweeperAI.mark_safe c ai))) ∧
  (∀ (i : nat) (s : Sentence.t) (cs : gset Cell) (c : Cell),
     MinesweeperAI.knowledge ai !! i = Some s →
     Sentence.known_mines s = Some cs → c ∈ cs →
     Forall within_bounds (MinesweeperAI.knowledge (MinesweeperAI.mark_mine c ai))) ∧
  (∀ (cell : Cell) (count : Z) (n : nat),
     valid_observation g (cell, count) →
     Forall within_bounds
       (MinesweeperAI.knowledge
          (foldl MinesweeperAI.conclude
                 (MinesweeperAI.new_sentence cell count ai) (seq 0 n)))).
Proof.
  intros Hvalid Hplay.
  assert (sound g ai) as Hai.
  { eapply play_sound; [exact Hvalid|apply sound_init|exact Hplay]. }
  split_and!.
  - by apply (sound_within_bounds g).
  - intros i s cs c Hi Hks Hc. apply (sound_within_bounds g).
    apply mark_safe_sound; [|done].
    pose proof (known_safes_ok g s cs (sound_lookup g _ _ _ Hai Hi) Hks) as Hd.
    intros Hm. by apply (Hd c).
  - intros i s cs c Hi Hkm Hc. apply (sound_within_bounds g).
    apply mark_mine_sound; [|done].
    by apply (known_mines_ok g s cs (sound_lookup g _ _ _ Hai Hi) Hkm).
  - intros cell count n Hv. apply (sound_within_bounds g).
    by apply foldl_conclude_sound, new_sentence_sound.
Qed.

Lemma C5_sentences_within_bounds_witness :
  Forall (valid_observation board_A) game_A ∧
  play 10 game_A (MinesweeperAI.init 1 5) = Some state_A ∧
  Forall within_bounds (MinesweeperAI.knowledge state_A) ∧
  (∀ (i : nat) (s : Sentence.t) (cs : gset Cell) (c : Cell),
     MinesweeperAI.knowledge state_A !! i = Some s →
     Sentence.known_safes s = Some cs → c ∈ cs →
     Forall within_bounds
       (MinesweeperAI.knowledge (MinesweeperAI.mark_safe c state_A))) ∧
  (∀ (i : nat) (s : Sentence.t) (cs : gset Cell) (c : Cell),
     MinesweeperAI.knowledge state_A !! i = Some s →
     Sentence.known_mines s = Some cs → c ∈ cs →
     Forall within_bounds
       (MinesweeperAI.knowledge (MinesweeperAI.mark_mine c state_A))) ∧
  (∀ (cell : Cell) (count : Z) (n : nat),
     valid_observation board_A (cell, count) →
     Forall within_bounds
       (MinesweeperAI.knowledge
          (foldl MinesweeperAI.conclude
                 (MinesweeperAI.new_sentence cell count state_A) (seq 0 n)))).
Proof.
  split; [valid_game|].
  split; [vm_compute; reflexivity|].
  apply (C5_sentences_within_bounds board_A 10 game_A state_A).
  - valid_game.
  - vm_compute. reflexivity.
Defined.

(** C6 — for any board and any sequence of valid observations every
    call of [add_knowledge] returns: with enough fuel for the loops of
    step 5 the whole game is played to a final state. *)
Theorem C6_add_knowledge_returns (g : Minesweeper.t)
    (observations : list (Cell * Z)) :
  Forall (valid_observation g) observations →
  ∃ (fuel : nat) (ai : MinesweeperAI.t),
    play fuel observations
         (MinesweeperAI.init (Minesweeper.height g) (Minesweeper.width g)) = Some ai.
Proof.
  intros Hvalid.
  destruct (play_terminates g observations Hvalid _ (sound_init g))
    as (fuel & ai & Hplay & _).
  by exists fuel, ai.
Qed.

Lemma C6_add_knowledge_returns_witness :
  Forall (valid_observation board_A) game_A ∧
  ∃ (fuel : nat) (ai : MinesweeperAI.t),
    play fuel game_A (MinesweeperAI.init 1 5) = Some ai.
Proof.
  split; [valid_game|].
  apply (C6_add_knowledge_returns board_A game_A). valid_game.
Defined.




(** C8 — with [A = {a,b,c} = 1] and [B = {a,b,c,d} = 2] in the list, the
    subset pass is said to leave [{d} = 1] in it, and so for every pair
    with [A.cells] a subset of [B.cells]. On [board_E], after the game
    [game_E] and the observation of [(1,1)] with count 3, step 5 starts
    from the list [sentence_E0; sentence_E1; sentence_E2; sentence_E3]:
    the last two are a pair [A], [B] of that kind, both still in the list
    when the call returns, and their difference
    [{(2,0), (2,1), (2,2)} = 1] is not. The removal of the duplicate
    [sentence_E1] moves the list under the two iterators, which then pass
    over [B] in the inner loop and over [A] in the outer one. *)
Theorem C8_subset_inference_skips_a_pair :
  Forall (valid_observation board_E) (game_E ++ [((1, 1)%Z, 3%Z)]) ∧
  play 10 game_E (MinesweeperAI.init 3 3) = Some state_E ∧
  MinesweeperAI.knowledge
    (MinesweeperAI.conclusions (MinesweeperAI.new_sentence (1, 1)%Z 3 state_E))
  = [sentence_E0; sentence_E1; sentence_E2; sentence_E3] ∧
  MinesweeperAI.add_knowledge 20 (1, 1)%Z 3 state_E = Some state_E' ∧
  MinesweeperAI.knowledge state_E' = [sentence_E0; sentence_E2; sentence_E3] ∧
  Sentence.cells sentence_E2 ⊆ Sentence.cells sentence_E3 ∧
  Sentence.cells sentence_E3 ∖ Sentence.cells sentence_E2
  = {[ (2, 0)%Z; (2, 1)%Z; (2, 2)%Z ]} ∧
  (Sentence.count sentence_E3 - Sentence.count sentence_E2 = 1)%Z ∧
  MinesweeperAI.in_knowledge {[ (2, 0)%Z; (2, 1)%Z; (2, 2)%Z ]} 1 state_E' = false.
Proof.
  split_and!.
  - valid_game.
  - exact game_E_plays.
  - vm_compute. reflexivity.
  - vm_compute. reflexivity.
  - reflexivity.
  - apply (bool_decide_unpack _). vm_compute. exact I.
  - vm_compute. reflexivity.
  - reflexivity.
  - vm_compute. reflexivity.
Qed.

(** C9 — across a call of [add_knowledge], of the knowledge-base
    [mark_safe] or of the knowledge-base [mark_mine], each of
    [moves_made], [safes] and [mines] after the call includes what it was
    before. *)
Theorem C9_sets_only_grow (op : operation) (ai ai' : MinesweeperAI.t) :
  call op ai = Some ai' →
  MinesweeperAI.moves_made ai ⊆ MinesweeperAI.moves_made ai' ∧
  MinesweeperAI.safes ai ⊆ MinesweeperAI.safes ai' ∧
  MinesweeperAI.mines ai ⊆ MinesweeperAI.mines ai'.
Proof.
  destruct op as [fuel cell count|cell|cell]; simpl.
  - apply add_knowledge_grows.
  - intros [= <-]. apply mark_safe_grows.
  - intros [= <-]. apply mark_mine_grows.
Qed.

Lemma C9_sets_only_grow_witness :
  call (Add_knowledge 10 (1, 1)%Z 1) state_D = Some state_D' ∧
  MinesweeperAI.moves_made state_D ⊆ MinesweeperAI.moves_made state_D' ∧
  MinesweeperAI.safes state_D ⊆ MinesweeperAI.safes state_D' ∧
  MinesweeperAI.mines state_D ⊆ MinesweeperAI.mines state_D'.
Proof.
  split; [vm_compute; reflexivity|].
  apply (C9_sets_only_grow (Add_knowledge 10 (1, 1)%Z 1) state_D state_D').
  vm_compute. reflexivity.
Defined.

(** C10 — for the sentence with no cells and count 0, [known_mines] and
    [known_safes] both return a set, the empty one, and not [None]. *)
Theorem C10_vacuous_sentence_resolves (oid : nat) :
  Sentence.known_mines (Sentence.mk oid ∅ 0) = Some ∅ ∧
  Sentence.known_safes (Sentence.mk oid ∅ 0) = Some ∅.
Proof.
  unfold Sentence.known_mines, Sentence.known_safes, Sentence.count, Sentence.cells.
  rewrite size_empty. split; reflexivity.
Qed.

(** * Further properties of the code *)

(** ** The board: [nearby_mines] *)

Lemma elem_of_window (cell x : Cell) :
  x ∈ window cell ↔
  (cell.1 - 1 ≤ x.1 ≤ cell.1 + 1)%Z ∧ (cell.2 - 1 ≤ x.2 ≤ cell.2 + 1)%Z.
Proof.
  destruct cell as [r c], x as [i j]. unfold window, range3. simpl.
  rewrite !elem_of_cons, elem_of_nil. split.
  - intros H. repeat destruct H as [H|H]; try done; injection H as -> ->; lia.
  - intros [Hi Hj].
    assert (i = r - 1 ∨ i = r ∨ i = r + 1)%Z as Hi' by lia.
    assert (j = c - 1 ∨ j = c ∨ j = c + 1)%Z as Hj' by lia.
    destruct Hi' as [-> | [-> | ->]], Hj' as [-> | [-> | ->]]; tauto.
Qed.

Lemma in_bounds_true (height width : Z) (x : Cell) :
  in_bounds height width x = true ↔ (0 ≤ x.1 < height)%Z ∧ (0 ≤ x.2 < width)%Z.
Proof.
  unfold in_bounds. rewrite !andb_true_iff, !Z.leb_le, !Z.ltb_lt. tauto.
Qed.

Lemma count_window_filter (g : Minesweeper.t) (cell : Cell) (l : list Cell) :
  ∀ n : Z,
    foldl (Minesweeper.count_neighbor g cell) n l
    = (n + Z.of_nat (length (filter
             (λ x, (x ≠ cell ∧
                    in_bounds (Minesweeper.height g) (Minesweeper.width g) x = true) ∧
                   x ∈ Minesweeper.mines g) l)))%Z.
Proof.
  induction l as [|y l IH]; intros n; simpl; [lia|].
  rewrite IH, filter_cons. unfold Minesweeper.count_neighbor, Minesweeper.board.
  case_bool_decide as Hcell.
  { rewrite decide_False; [done|]. intros [[H _] _]. congruence. }
  destruct (in_bounds _ _ y) eqn:Hin.
  2:{ rewrite decide_False; [done|]. intros [[_ H] _]. congruence. }
  case_bool_decide as Hm.
  - rewrite decide_True by done. simpl. lia.
  - rewrite decide_False by tauto. done.
Qed.

Lemma NoDup_neighbours_list (height width : Z) (cell : Cell) :
  NoDup (filter (λ x, x ≠ cell ∧ in_bounds height width x = true) (window cell)).
Proof. apply NoDup_filter, NoDup_window. Qed.

Lemma size_neighbours_inter (height width : Z) (cell : Cell) (M : gset Cell) :
  size (neighbours height width cell ∩ M)
  = length (filter (λ x, (x ≠ cell ∧ in_bounds height width x = true) ∧ x ∈ M)
                   (window cell)).
Proof.
  rewrite <- list_filter_filter.
  rewrite <- (size_list_to_set (C:=gset Cell)).
  2:{ apply NoDup_filter, NoDup_filter, NoDup_window. }
  f_equal. apply set_eq. intros x. unfold neighbours.
  rewrite elem_of_intersection, !elem_of_list_to_set, !list_elem_of_filter. tauto.
Qed.

Lemma size_neighbours (height width : Z) (cell : Cell) :
  size (neighbours height width cell) ≤ 8.
Proof.
  unfold neighbours. rewrite size_list_to_set by apply NoDup_neighbours_list.
  assert (length (window cell) = 9) as Hlen by (by destruct cell).
  assert (length (filter (λ x, x ≠ cell ∧ in_bounds height width x = true) (window cell))
          < length (window cell)); [|lia].
  apply (length_filter_lt _ _ cell).
  - apply elem_of_window. lia.
  - intros [H _]. done.
Qed.

Lemma elem_of_neighbours (height width : Z) (cell x : Cell) :
  x ∈ neighbours height width cell ↔
  x ≠ cell ∧
  (cell.1 - 1 ≤ x.1 ≤ cell.1 + 1)%Z ∧ (cell.2 - 1 ≤ x.2 ≤ cell.2 + 1)%Z ∧
  (0 ≤ x.1 < height)%Z ∧ (0 ≤ x.2 < width)%Z.
Proof.
  unfold neighbours.
  rewrite elem_of_list_to_set, list_elem_of_filter, elem_of_window, in_bounds_true.
  tauto.
Qed.

(** X1 — the cells that the two neighbourhood loops accept around a
    cell. On a board whose only mine is at [x], [nearby_mines] of a cell
    is 1 when [x] is a cell of the board other than the cell itself whose
    row and column are both within one of the cell's, and 0 otherwise.
    The loop of [add_knowledge], run in any state, collects exactly the
    cells of that kind that are neither in [moves_made] nor in [mines]:
    at most eight of them. *)
Theorem X1_neighbours_are_adjacent_cells (height width : Z) (cell x : Cell)
    (ai : MinesweeperAI.t) (count : Z) :
  Minesweeper.nearby_mines (Minesweeper.mk height width {[ x ]}) cell
  = (if bool_decide (x ≠ cell ∧
                     (cell.1 - 1 ≤ x.1 ≤ cell.1 + 1)%Z ∧
                     (cell.2 - 1 ≤ x.2 ≤ cell.2 + 1)%Z ∧
                     (0 ≤ x.1 < height)%Z ∧ (0 ≤ x.2 < width)%Z)
     then 1 else 0)%Z ∧
  (x ∈ (foldl (MinesweeperAI.scan_neighbor ai cell) (∅, count) (window cell)).1 ↔
   x ≠ cell ∧
   (cell.1 - 1 ≤ x.1 ≤ cell.1 + 1)%Z ∧ (cell.2 - 1 ≤ x.2 ≤ cell.2 + 1)%Z ∧
   (0 ≤ x.1 < MinesweeperAI.height ai)%Z ∧ (0 ≤ x.2 < MinesweeperAI.width ai)%Z ∧
   (x ∉ MinesweeperAI.moves_made ai) ∧ (x ∉ MinesweeperAI.mines ai)) ∧
  size (foldl (MinesweeperAI.scan_neighbor ai cell) (∅, count) (window cell)).1 ≤ 8.
Proof.
  split_and!.
  - assert (Minesweeper.nearby_mines (Minesweeper.mk height width {[ x ]}) cell
            = Z.of_nat (size (neighbours height width cell ∩ {[ x ]}))) as ->.
    { unfold Minesweeper.nearby_mines.
      rewrite count_window_filter, size_neighbours_inter.
      unfold Minesweeper.height, Minesweeper.width, Minesweeper.mines. lia. }
    case_bool_decide as Hadj.
    + apply elem_of_neighbours in Hadj.
      assert (neighbours height width cell ∩ {[ x ]} = {[ x ]}) as ->.
      { apply set_eq. intros y.
        rewrite elem_of_intersection, elem_of_singleton.
        split; [tauto|]. by intros ->. }
      by rewrite size_singleton.
    + assert (neighbours height width cell ∩ {[ x ]} = ∅) as ->.
      { apply set_eq. intros y.
        rewrite elem_of_intersection, elem_of_singleton, elem_of_empty.
        split; [|done]. intros [Hy ->]. by apply Hadj, elem_of_neighbours. }
      by rewrite size_empty.
  - pose proof (scan_window_members ai cell (window cell) (∅, count) x) as Hmem.
    remember (foldl (MinesweeperAI.scan_neighbor ai cell) (∅, count) (window cell))
      as acc eqn:Hacc. clear Hacc.
    change ((∅, count).1) with (∅ : gset Cell) in Hmem.
    rewrite Hmem, elem_of_window, in_bounds_true, elem_of_empty. tauto.
  - pose proof (scan_window_members ai cell (window cell) (∅, count)) as Hmem.
    remember (foldl (MinesweeperAI.scan_neighbor ai cell) (∅, count) (window cell))
      as acc eqn:Hacc. clear Hacc.
    change ((∅, count).1) with (∅ : gset Cell) in Hmem.
    etrans; [|apply (size_neighbours (MinesweeperAI.height ai)
                                       (MinesweeperAI.width ai) cell)].
    apply subseteq_size. intros y Hy.
    apply Hmem in Hy as [Hy|(Hw & Hne & Hb & _)]; [by apply elem_of_empty in Hy|].
    apply elem_of_neighbours. apply elem_of_window in Hw.
    apply in_bounds_true in Hb. tauto.
Qed.

(** X2 — [nearby_mines] returns the number of mines among the adjacent
    cells of the board: the cell itself is not counted, nor is anything
    outside the board, and the result lies between 0 and 8. *)
Theorem X2_nearby_mines_counts_adjacent_mines (g : Minesweeper.t) (cell : Cell) :
  Minesweeper.nearby_mines g cell
  = Z.of_nat (size (neighbours (Minesweeper.height g) (Minesweeper.width g) cell
                    ∩ Minesweeper.mines g)) ∧
  (0 ≤ Minesweeper.nearby_mines g cell ≤ 8)%Z.
Proof.
  assert (Minesweeper.nearby_mines g cell
          = Z.of_nat (size (neighbours (Minesweeper.height g) (Minesweeper.width g) cell
                            ∩ Minesweeper.mines g))) as Heq.
  { unfold Minesweeper.nearby_mines.
    rewrite count_window_filter, size_neighbours_inter. lia. }
  split; [exact Heq|]. rewrite Heq.
  pose proof (size_neighbours (Minesweeper.height g) (Minesweeper.width g) cell).
  assert (size (neighbours (Minesweeper.height g) (Minesweeper.width g) cell
                ∩ Minesweeper.mines g)
          ≤ size (neighbours (Minesweeper.height g) (Minesweeper.width g) cell)).
  { apply subseteq_size, intersection_subseteq_l. }
  lia.
Qed.

(** ** Sentences *)

Lemma sentence_mark_safe_absent (c : Cell) (s : Sentence.t) :
  c ∉ Sentence.cells s → Sentence.mark_safe c s = s.
Proof. intros Hc. unfold Sentence.mark_safe. by rewrite bool_decide_eq_false_2. Qed.

Lemma sentence_mark_mine_absent (c : Cell) (s : Sentence.t) :
  c ∉ Sentence.cells s → Sentence.mark_mine c s = s.
Proof. intros Hc. unfold Sentence.mark_mine. by rewrite bool_decide_eq_false_2. Qed.

Lemma sentence_mark_safe_cells (c : Cell) (s : Sentence.t) :
  Sentence.cells (Sentence.mark_safe c s) = Sentence.cells s ∖ {[c]}.
Proof.
  unfold Sentence.mark_safe. case_bool_decide as Hc; [done|].
  apply set_eq. intros x. rewrite elem_of_difference, elem_of_singleton.
  split; [|tauto]. intros Hx. split; [done|]. by intros ->.
Qed.

Lemma sentence_mark_mine_cells (c : Cell) (s : Sentence.t) :
  Sentence.cells (Sentence.mark_mine c s) = Sentence.cells s ∖ {[c]}.
Proof.
  unfold Sentence.mark_mine. case_bool_decide as Hc; [done|].
  apply set_eq. intros x. rewrite elem_of_difference, elem_of_singleton.
  split; [|tauto]. intros Hx. split; [done|]. by intros ->.
Qed.

Lemma sentence_mark_safe_gone (c : Cell) (s : Sentence.t) :
  c ∉ Sentence.cells (Sentence.mark_safe c s).
Proof.
  rewrite sentence_mark_safe_cells, elem_of_difference, elem_of_singleton. tauto.
Qed.

Lemma sentence_mark_mine_gone (c : Cell) (s : Sentence.t) :
  c ∉ Sentence.cells (Sentence.mark_mine c s).
Proof.
  rewrite sentence_mark_mine_cells, elem_of_difference, elem_of_singleton. tauto.
Qed.

(** X3 — marking a cell in a sentence a second time changes nothing,
    whichever the two marks are: [mark_safe] and [mark_mine] are
    idempotent, and after one of them the other has no effect for the same
    cell. *)
Theorem X3_sentence_first_mark_wins (c : Cell) (s : Sentence.t) :
  Sentence.mark_safe c (Sentence.mark_safe c s) = Sentence.mark_safe c s ∧
  Sentence.mark_mine c (Sentence.mark_mine c s) = Sentence.mark_mine c s ∧
  Sentence.mark_mine c (Sentence.mark_safe c s) = Sentence.mark_safe c s ∧
  Sentence.mark_safe c (Sentence.mark_mine c s) = Sentence.mark_mine c s.
Proof.
  split_and!.
  - apply sentence_mark_safe_absent, sentence_mark_safe_gone.
  - apply sentence_mark_mine_absent, sentence_mark_mine_gone.
  - apply sentence_mark_mine_absent, sentence_mark_safe_gone.
  - apply sentence_mark_safe_absent, sentence_mark_mine_gone.
Qed.

Lemma sentence_eq (s s' : Sentence.t) :
  Sentence.oid s = Sentence.oid s' → Sentence.cells s = Sentence.cells s' →
  Sentence.count s = Sentence.count s' → s = s'.
Proof. destruct s, s'. simpl. by intros -> -> ->. Qed.

Lemma sentence_mark_safe_oid (c : Cell) (s : Sentence.t) :
  Sentence.oid (Sentence.mark_safe c s) = Sentence.oid s.
Proof. unfold Sentence.mark_safe. by case_bool_decide. Qed.

Lemma sentence_mark_mine_oid (c : Cell) (s : Sentence.t) :
  Sentence.oid (Sentence.mark_mine c s) = Sentence.oid s.
Proof. unfold Sentence.mark_mine. by case_bool_decide. Qed.

Lemma sentence_mark_safe_count (c : Cell) (s : Sentence.t) :
  Sentence.count (Sentence.mark_safe c s) = Sentence.count s.
Proof. unfold Sentence.mark_safe. by case_bool_decide. Qed.

Lemma sentence_mark_mine_count (c : Cell) (s : Sentence.t) :
  Sentence.count (Sentence.mark_mine c s)
  = (Sentence.count s - if bool_decide (c ∈ Sentence.cells s) then 1 else 0)%Z.
Proof. unfold Sentence.mark_mine. case_bool_decide; simpl; lia. Qed.

Lemma difference_twice_comm (X : gset Cell) (a b : Cell) :
  X ∖ {[a]} ∖ {[b]} = X ∖ {[b]} ∖ {[a]}.
Proof.
  apply set_eq. intros x. rewrite !elem_of_difference, !elem_of_singleton. tauto.
Qed.

Lemma bool_decide_elem_of_difference (X : gset Cell) (a b : Cell) :
  a ≠ b → bool_decide (a ∈ X ∖ {[b]}) = bool_decide (a ∈ X).
Proof.
  intros Hab. apply bool_decide_ext.
  rewrite elem_of_difference, elem_of_singleton. tauto.
Qed.

(** X4 — marks of two different cells in a sentence commute, whatever
    the two marks are. *)
Theorem X4_sentence_marks_commute (a b : Cell) (s : Sentence.t) :
  a ≠ b →
  Sentence.mark_safe a (Sentence.mark_safe b s)
  = Sentence.mark_safe b (Sentence.mark_safe a s) ∧
  Sentence.mark_mine a (Sentence.mark_mine b s)
  = Sentence.mark_mine b (Sentence.mark_mine a s) ∧
  Sentence.mark_safe a (Sentence.mark_mine b s)
  = Sentence.mark_mine b (Sentence.mark_safe a s).
Proof.
  intros Hab.
  assert (b ≠ a) as Hba by congruence.
  split_and!; apply sentence_eq;
    rewrite ?sentence_mark_safe_oid, ?sentence_mark_mine_oid,
      ?sentence_mark_safe_oid, ?sentence_mark_safe_cells,
      ?sentence_mark_mine_cells, ?sentence_mark_safe_cells;
    try done; try apply difference_twice_comm.
  - by rewrite !sentence_mark_safe_count.
  - rewrite !sentence_mark_mine_count, !sentence_mark_mine_cells,
      !bool_decide_elem_of_difference by done. lia.
  - rewrite ?sentence_mark_safe_count, ?sentence_mark_mine_count,
      ?sentence_mark_safe_count, ?sentence_mark_safe_cells.
    rewrite bool_decide_elem_of_difference by done. lia.
Qed.

Lemma X4_sentence_marks_commute_witness :
  (0, 0)%Z ≠ (0, 1)%Z ∧
  Sentence.mark_safe (0, 0)%Z
    (Sentence.mark_safe (0, 1)%Z (Sentence.mk 0 {[ (0, 0)%Z; (0, 1)%Z; (0, 2)%Z ]} 1))
  = Sentence.mark_safe (0, 1)%Z
      (Sentence.mark_safe (0, 0)%Z (Sentence.mk 0 {[ (0, 0)%Z; (0, 1)%Z; (0, 2)%Z ]} 1)) ∧
  Sentence.mark_mine (0, 0)%Z
    (Sentence.mark_mine (0, 1)%Z (Sentence.mk 0 {[ (0, 0)%Z; (0, 1)%Z; (0, 2)%Z ]} 1))
  = Sentence.mark_mine (0, 1)%Z
      (Sentence.mark_mine (0, 0)%Z (Sentence.mk 0 {[ (0, 0)%Z; (0, 1)%Z; (0, 2)%Z ]} 1)) ∧
  Sentence.mark_safe (0, 0)%Z
    (Sentence.mark_mine (0, 1)%Z (Sentence.mk 0 {[ (0, 0)%Z; (0, 1)%Z; (0, 2)%Z ]} 1))
  = Sentence.mark_mine (0, 1)%Z
      (Sentence.mark_safe (0, 0)%Z (Sentence.mk 0 {[ (0, 0)%Z; (0, 1)%Z; (0, 2)%Z ]} 1)).
Proof.
  split; [intros H; discriminate H|].
  apply (X4_sentence_marks_commute (0, 0)%Z (0, 1)%Z).
  intros H. discriminate H.
Defined.

(** X5 — [known_safes] returns a set exactly when the count is 0, and
    [known_mines] exactly when the count is the number of cells; the set
    returned is the whole cell set. Both return one only for the sentence
    with no cells and count 0: from a sentence that has a cell, at most
    one kind of conclusion is drawn. *)
Theorem X5_both_resolve_only_when_vacuous (s : Sentence.t) :
  (∀ a, Sentence.known_safes s = Some a ↔
        Sentence.count s = 0%Z ∧ a = Sentence.cells s) ∧
  (∀ b, Sentence.known_mines s = Some b ↔
        Sentence.count s = Z.of_nat (size (Sentence.cells s)) ∧ b = Sentence.cells s) ∧
  (is_Some (Sentence.known_safes s) ∧ is_Some (Sentence.known_mines s) ↔
   Sentence.cells s = ∅ ∧ Sentence.count s = 0%Z).
Proof.
  unfold Sentence.known_safes, Sentence.known_mines. split_and!.
  - intros a. case_bool_decide as H0.
    + split; [by intros [= <-]|]. by intros [_ ->].
    + split; [done|]. by intros [H _].
  - intros b. case_bool_decide as Hn.
    + split; [by intros [= <-]|]. by intros [_ ->].
    + split; [done|]. by intros [H _].
  - case_bool_decide as H0; case_bool_decide as Hn.
    + split; [|by split]. intros _. split; [|done].
      apply leibniz_equiv, size_empty_inv. lia.
    + split; [by intros [_ [b Hb]]|]. intros [He Hc]. exfalso. apply Hn.
      rewrite He, size_empty. exact Hc.
    + split; [by intros [[a Ha] _]|]. by intros [_ Hc].
    + split; [by intros [[a Ha] _]|]. by intros [_ Hc].
Qed.

(** X6 — what a sentence that is true of a board lets one conclude is
    true of that board: if its count is the number of mines among its
    cells, the cells that [known_mines] returns are all mines and none of
    the cells that [known_safes] returns is. *)
Theorem X6_conclusions_of_a_true_sentence (g : Minesweeper.t) (s : Sentence.t) :
  Sentence.count s = Z.of_nat (size (Sentence.cells s ∩ Minesweeper.mines g)) →
  (∀ X, Sentence.known_mines s = Some X → X ⊆ Minesweeper.mines g) ∧
  (∀ X, Sentence.known_safes s = Some X → X ## Minesweeper.mines g).
Proof.
  intros Hn. split; intros X.
  - unfold Sentence.known_mines. case_bool_decide as H0; [|done]. intros [= <-].
    rewrite Hn in H0. apply Nat2Z.inj in H0.
    assert (Sentence.cells s ∩ Minesweeper.mines g = Sentence.cells s) as Heq.
    { apply set_subseteq_size_eq; [apply intersection_subseteq_l|lia]. }
    rewrite <- Heq. apply intersection_subseteq_r.
  - unfold Sentence.known_safes. case_bool_decide as H0; [|done]. intros [= <-].
    rewrite H0 in Hn.
    assert (size (Sentence.cells s ∩ Minesweeper.mines g) = 0) as Hz by lia.
    apply size_empty_inv in Hz. intros x Hx Hm.
    apply (not_elem_of_empty (C:=gset Cell) x). apply Hz.
    by apply elem_of_intersection.
Qed.

Lemma X6_conclusions_of_a_true_sentence_witness :
  Sentence.count (Sentence.mk 0 {[ (0, 1)%Z ]} 1)
  = Z.of_nat (size (Sentence.cells (Sentence.mk 0 {[ (0, 1)%Z ]} 1)
                    ∩ Minesweeper.mines board_A)) ∧
  (∀ X, Sentence.known_mines (Sentence.mk 0 {[ (0, 1)%Z ]} 1) = Some X →
        X ⊆ Minesweeper.mines board_A) ∧
  (∀ X, Sentence.known_safes (Sentence.mk 0 {[ (0, 1)%Z ]} 1) = Some X →
        X ## Minesweeper.mines board_A).
Proof.
  split; [vm_compute; reflexivity|].
  apply (X6_conclusions_of_a_true_sentence board_A (Sentence.mk 0 {[ (0, 1)%Z ]} 1)).
  vm_compute. reflexivity.
Defined.

(** X7 — narrowing a sentence by a true fact keeps it true: if the count
    is the number of mines among the cells, it is so again after
    [mark_safe] of a cell that is not a mine and after [mark_mine] of a
    cell that is one. With a false fact it is not kept in general: see
    [sentence_mark_mine_of_a_safe_cell]. *)
Theorem X7_narrowing_keeps_a_sentence_true (g : Minesweeper.t) (s : Sentence.t)
    (c : Cell) :
  Sentence.count s = Z.of_nat (size (Sentence.cells s ∩ Minesweeper.mines g)) →
  (c ∉ Minesweeper.mines g →
   Sentence.count (Sentence.mark_safe c s)
   = Z.of_nat (size (Sentence.cells (Sentence.mark_safe c s) ∩ Minesweeper.mines g))) ∧
  (c ∈ Minesweeper.mines g →
   Sentence.count (Sentence.mark_mine c s)
   = Z.of_nat (size (Sentence.cells (Sentence.mark_mine c s) ∩ Minesweeper.mines g))).
Proof.
  intros Hn. split; intros Hc.
  - unfold Sentence.mark_safe. case_bool_decide as Hin; [|done]. simpl.
    rewrite Hn. do 2 f_equal. apply set_eq. intros x.
    rewrite !elem_of_intersection, elem_of_difference, elem_of_singleton.
    split; [|tauto]. intros [Hx Hm]. split_and!; [done| |done]. by intros ->.
  - unfold Sentence.mark_mine. case_bool_decide as Hin; [|done]. simpl.
    rewrite Hn, (size_inter_remove_mine g _ c Hin Hc). lia.
Qed.

Lemma X7_narrowing_keeps_a_sentence_true_witness :
  Sentence.count (Sentence.mk 0 {[ (0, 1)%Z; (0, 3)%Z ]} 1)
  = Z.of_nat (size (Sentence.cells (Sentence.mk 0 {[ (0, 1)%Z; (0, 3)%Z ]} 1)
                    ∩ Minesweeper.mines board_A)) ∧
  ((0, 3)%Z ∉ Minesweeper.mines board_A →
   Sentence.count (Sentence.mark_safe (0, 3)%Z (Sentence.mk 0 {[ (0, 1)%Z; (0, 3)%Z ]} 1))
   = Z.of_nat (size (Sentence.cells
                       (Sentence.mark_safe (0, 3)%Z
                          (Sentence.mk 0 {[ (0, 1)%Z; (0, 3)%Z ]} 1))
                     ∩ Minesweeper.mines board_A))) ∧
  ((0, 3)%Z ∈ Minesweeper.mines board_A →
   Sentence.count (Sentence.mark_mine (0, 3)%Z (Sentence.mk 0 {[ (0, 1)%Z; (0, 3)%Z ]} 1))
   = Z.of_nat (size (Sentence.cells
                       (Sentence.mark_mine (0, 3)%Z
                          (Sentence.mk 0 {[ (0, 1)%Z; (0, 3)%Z ]} 1))
                     ∩ Minesweeper.mines board_A))).
Proof.
  split; [vm_compute; reflexivity|].
  apply (X7_narrowing_keeps_a_sentence_true board_A
           (Sentence.mk 0 {[ (0, 1)%Z; (0, 3)%Z ]} 1) (0, 3)%Z).
  vm_compute. reflexivity.
Defined.

(** [mark_mine] does not check its argument against the count: marking
    as a mine a cell of a sentence whose count is 0 leaves a negative
    count. *)
Lemma sentence_mark_mine_of_a_safe_cell :
  Sentence.mark_mine (0, 0)%Z (Sentence.mk 0 {[ (0, 0)%Z; (0, 1)%Z ]} 0)
  = Sentence.mk 0 {[ (0, 1)%Z ]} (-1).
Proof. vm_compute. reflexivity. Qed.

(** ** The knowledge base: [mark_safe] and [mark_mine] *)

(** X8 — after the knowledge-base [mark_safe] of a cell, the cell is in
    [safes] and in no sentence of the list; after [mark_mine], it is in
    [mines] and in no sentence. The list keeps the same objects at the
    same places, and [moves_made] is left alone. *)
Theorem X8_marked_cell_leaves_every_sentence (c : Cell) (ai : MinesweeperAI.t) :
  (c ∈ MinesweeperAI.safes (MinesweeperAI.mark_safe c ai) ∧
   Forall (λ s, c ∉ Sentence.cells s)
          (MinesweeperAI.knowledge (MinesweeperAI.mark_safe c ai)) ∧
   Sentence.oid <$> MinesweeperAI.knowledge (MinesweeperAI.mark_safe c ai)
   = Sentence.oid <$> MinesweeperAI.knowledge ai ∧
   MinesweeperAI.moves_made (MinesweeperAI.mark_safe c ai)
   = MinesweeperAI.moves_made ai) ∧
  (c ∈ MinesweeperAI.mines (MinesweeperAI.mark_mine c ai) ∧
   Forall (λ s, c ∉ Sentence.cells s)
          (MinesweeperAI.knowledge (MinesweeperAI.mark_mine c ai)) ∧
   Sentence.oid <$> MinesweeperAI.knowledge (MinesweeperAI.mark_mine c ai)
   = Sentence.oid <$> MinesweeperAI.knowledge ai ∧
   MinesweeperAI.moves_made (MinesweeperAI.mark_mine c ai)
   = MinesweeperAI.moves_made ai).
Proof.
  split; split_and!; simpl; try done.
  - apply elem_of_union_l, elem_of_singleton. done.
  - apply Forall_fmap, Forall_forall. intros s _. apply sentence_mark_safe_gone.
  - rewrite <- list_fmap_compose. apply list_fmap_ext. intros i s _. simpl.
    apply sentence_mark_safe_oid.
  - apply elem_of_union_l, elem_of_singleton. done.
  - apply Forall_fmap, Forall_forall. intros s _. apply sentence_mark_mine_gone.
  - rewrite <- list_fmap_compose. apply list_fmap_ext. intros i s _. simpl.
    apply sentence_mark_mine_oid.
Qed.

Lemma foldl_mark_safe (l : list Cell) :
  ∀ ai : MinesweeperAI.t,
    foldl (λ ai c, MinesweeperAI.mark_safe c ai) ai l
    = MinesweeperAI.mk (MinesweeperAI.height ai) (MinesweeperAI.width ai)
        (MinesweeperAI.moves_made ai) (MinesweeperAI.mines ai)
        (list_to_set l ∪ MinesweeperAI.safes ai)
        (narrowed_safe (list_to_set l) <$> MinesweeperAI.knowledge ai)
        (MinesweeperAI.next_oid ai).
Proof.
  induction l as [|c l IH]; intros ai.
  - destruct ai as [h w mv mi sa K n]. simpl. f_equal.
    + apply set_eq. intros x. rewrite elem_of_union, elem_of_empty. tauto.
    + rewrite <- (list_fmap_id K) at 1. apply list_fmap_ext. intros i s _.
      apply sentence_eq; simpl; [done| |done].
      apply set_eq. intros x. rewrite elem_of_difference, elem_of_empty. tauto.
  - simpl. rewrite IH. unfold MinesweeperAI.mark_safe at 1 2 3 4 6.
    simpl. f_equal.
    + apply set_eq. intros x. rewrite !elem_of_union. tauto.
    + rewrite <- list_fmap_compose. apply list_fmap_ext. intros i s _. simpl.
      apply sentence_eq; simpl.
      * apply sentence_mark_safe_oid.
      * rewrite sentence_mark_safe_cells. apply set_eq. intros x.
        rewrite !elem_of_difference, elem_of_union. tauto.
      * apply sentence_mark_safe_count.
Qed.

Lemma size_inter_cons (X L : gset Cell) (c : Cell) :
  c ∉ L →
  size (X ∩ ({[c]} ∪ L))
  = (if bool_decide (c ∈ X) then 1 else 0) + size ((X ∖ {[c]}) ∩ L).
Proof.
  intros Hc. case_bool_decide as Hin.
  - assert (X ∩ ({[c]} ∪ L) = {[c]} ∪ (X ∖ {[c]}) ∩ L) as ->.
    { apply set_eq. intros x.
      rewrite elem_of_intersection, !elem_of_union, elem_of_intersection,
        elem_of_difference, elem_of_singleton.
      destruct (decide (x = c)) as [->|]; tauto. }
    rewrite size_union, size_singleton; [done|].
    intros x Hx%elem_of_singleton [Hx' _]%elem_of_intersection.
    apply elem_of_difference in Hx' as [_ Hx']. by apply Hx', elem_of_singleton.
  - simpl. f_equal. apply set_eq. intros x.
    rewrite !elem_of_intersection, elem_of_union, elem_of_difference,
      elem_of_singleton.
    split; [|tauto]. intros [Hx [->|HL]]; [done|].
    split_and!; [done| |done]. by intros ->.
Qed.

Lemma foldl_mark_mine (l : list Cell) :
  NoDup l →
  ∀ ai : MinesweeperAI.t,
    foldl (λ ai c, MinesweeperAI.mark_mine c ai) ai l
    = MinesweeperAI.mk (MinesweeperAI.height ai) (MinesweeperAI.width ai)
        (MinesweeperAI.moves_made ai)
        (list_to_set l ∪ MinesweeperAI.mines ai) (MinesweeperAI.safes ai)
        (narrowed_mines (list_to_set l) <$> MinesweeperAI.knowledge ai)
        (MinesweeperAI.next_oid ai).
Proof.
  induction 1 as [|c l Hc Hnd IH]; intros ai.
  - destruct ai as [h w mv mi sa K n]. simpl. f_equal.
    + apply set_eq. intros x. rewrite elem_of_union, elem_of_empty. tauto.
    + rewrite <- (list_fmap_id K) at 1. apply list_fmap_ext. intros i s _.
      apply sentence_eq; simpl; [done| |].
      * apply set_eq. intros x. rewrite elem_of_difference, elem_of_empty. tauto.
      * assert (Sentence.cells s ∩ (∅ : gset Cell) = ∅) as ->.
        { apply set_eq. intros x. rewrite elem_of_intersection, elem_of_empty. tauto. }
        rewrite size_empty. lia.
  - simpl. rewrite IH. unfold MinesweeperAI.mark_mine at 1 2 3 5 6.
    simpl. f_equal.
    + apply set_eq. intros x. rewrite !elem_of_union. tauto.
    + rewrite <- list_fmap_compose. apply list_fmap_ext. intros i s _. simpl.
      apply sentence_eq; simpl.
      * apply sentence_mark_mine_oid.
      * rewrite sentence_mark_mine_cells. apply set_eq. intros x.
        rewrite !elem_of_difference, elem_of_union. tauto.
      * rewrite sentence_mark_mine_count, sentence_mark_mine_cells.
        rewrite (size_inter_cons (Sentence.cells s) (list_to_set l) c).
        2:{ by rewrite elem_of_list_to_set. }
        case_bool_decide; lia.
Qed.

Lemma mark_all_safe_bulk (cs : gset Cell) (ai : MinesweeperAI.t) :
  MinesweeperAI.mark_all_safe cs ai
  = MinesweeperAI.mk (MinesweeperAI.height ai) (MinesweeperAI.width ai)
      (MinesweeperAI.moves_made ai) (MinesweeperAI.mines ai)
      (cs ∪ MinesweeperAI.safes ai)
      (narrowed_safe cs <$> MinesweeperAI.knowledge ai)
      (MinesweeperAI.next_oid ai).
Proof.
  unfold MinesweeperAI.mark_all_safe.
  by rewrite foldl_mark_safe, list_to_set_elements_L.
Qed.

Lemma mark_all_mines_bulk (cs : gset Cell) (ai : MinesweeperAI.t) :
  MinesweeperAI.mark_all_mines cs ai
  = MinesweeperAI.mk (MinesweeperAI.height ai) (MinesweeperAI.width ai)
      (MinesweeperAI.moves_made ai)
      (cs ∪ MinesweeperAI.mines ai) (MinesweeperAI.safes ai)
      (narrowed_mines cs <$> MinesweeperAI.knowledge ai)
      (MinesweeperAI.next_oid ai).
Proof.
  unfold MinesweeperAI.mark_all_mines.
  rewrite foldl_mark_mine by apply NoDup_elements.
  by rewrite list_to_set_elements_L.
Qed.

(** X9 — marking all the cells of a set, as step 4 of [add_knowledge]
    does with the copy of a resolved sentence, adds the set to [safes]
    (to [mines]) and takes it out of every sentence; for mines, the count
    of each sentence goes down by the number of its cells that were in
    the set. *)
Theorem X9_marking_a_set_of_cells (cs : gset Cell) (ai : MinesweeperAI.t) :
  MinesweeperAI.mark_all_safe cs ai
  = MinesweeperAI.mk (MinesweeperAI.height ai) (MinesweeperAI.width ai)
      (MinesweeperAI.moves_made ai) (MinesweeperAI.mines ai)
      (cs ∪ MinesweeperAI.safes ai)
      (narrowed_safe cs <$> MinesweeperAI.knowledge ai)
      (MinesweeperAI.next_oid ai) ∧
  MinesweeperAI.mark_all_mines cs ai
  = MinesweeperAI.mk (MinesweeperAI.height ai) (MinesweeperAI.width ai)
      (MinesweeperAI.moves_made ai)
      (cs ∪ MinesweeperAI.mines ai) (MinesweeperAI.safes ai)
      (narrowed_mines cs <$> MinesweeperAI.knowledge ai)
      (MinesweeperAI.next_oid ai).
Proof. split; [apply mark_all_safe_bulk|apply mark_all_mines_bulk]. Qed.

(** X10 — the order in which the copy of the set is gone through does
    not matter: marking its cells in any order gives the state that
    [mark_all_safe] ([mark_all_mines]) gives. *)
Theorem X10_marking_order_is_irrelevant (cs : gset Cell) (l : list Cell)
    (ai : MinesweeperAI.t) :
  l ≡ₚ elements cs →
  foldl (λ ai c, MinesweeperAI.mark_safe c ai) ai l = MinesweeperAI.mark_all_safe cs ai ∧
  foldl (λ ai c, MinesweeperAI.mark_mine c ai) ai l = MinesweeperAI.mark_all_mines cs ai.
Proof.
  intros Hl.
  assert (NoDup l) as Hnd by (rewrite Hl; apply NoDup_elements).
  assert (list_to_set l = cs) as Hset.
  { apply set_eq. intros x. by rewrite elem_of_list_to_set, Hl, elem_of_elements. }
  unfold MinesweeperAI.mark_all_safe, MinesweeperAI.mark_all_mines.
  rewrite !foldl_mark_safe, !foldl_mark_mine by (done || apply NoDup_elements).
  by rewrite Hset, list_to_set_elements_L.
Qed.

Lemma X10_marking_order_is_irrelevant_witness :
  reverse (elements ({[ (0, 1)%Z; (0, 3)%Z ]} : gset Cell))
    ≡ₚ elements ({[ (0, 1)%Z; (0, 3)%Z ]} : gset Cell) ∧
  foldl (λ ai c, MinesweeperAI.mark_safe c ai) state_A
        (reverse (elements ({[ (0, 1)%Z; (0, 3)%Z ]} : gset Cell)))
  = MinesweeperAI.mark_all_safe {[ (0, 1)%Z; (0, 3)%Z ]} state_A ∧
  foldl (λ ai c, MinesweeperAI.mark_mine c ai) state_A
        (reverse (elements ({[ (0, 1)%Z; (0, 3)%Z ]} : gset Cell)))
  = MinesweeperAI.mark_all_mines {[ (0, 1)%Z; (0, 3)%Z ]} state_A.
Proof.
  split; [apply reverse_Permutation|].
  apply (X10_marking_order_is_irrelevant {[ (0, 1)%Z; (0, 3)%Z ]}
           (reverse (elements ({[ (0, 1)%Z; (0, 3)%Z ]} : gset Cell))) state_A).
  apply reverse_Permutation.
Defined.

(** ** Step 4 of [add_knowledge] *)

Lemma mark_all_mines_empty (ai : MinesweeperAI.t) :
  MinesweeperAI.mark_all_mines ∅ ai = ai.
Proof. unfold MinesweeperAI.mark_all_mines. by rewrite elements_empty. Qed.

Lemma mark_all_safe_lookup (cs : gset Cell) (ai : MinesweeperAI.t) (i : nat) :
  MinesweeperAI.knowledge (MinesweeperAI.mark_all_safe cs ai) !! i
  = narrowed_safe cs <$> MinesweeperAI.knowledge ai !! i.
Proof.
  rewrite mark_all_safe_bulk. simpl. apply list_lookup_fmap.
Qed.

Lemma mark_all_mines_lookup (cs : gset Cell) (ai : MinesweeperAI.t) (i : nat) :
  MinesweeperAI.knowledge (MinesweeperAI.mark_all_mines cs ai) !! i
  = narrowed_mines cs <$> MinesweeperAI.knowledge ai !! i.
Proof.
  rewrite mark_all_mines_bulk. simpl. apply list_lookup_fmap.
Qed.

Lemma conclude_resolved_safe (ai : MinesweeperAI.t) (i : nat) (s : Sentence.t) :
  MinesweeperAI.knowledge ai !! i = Some s →
  Sentence.count s = 0%Z →
  MinesweeperAI.conclude ai i = MinesweeperAI.mark_all_safe (Sentence.cells s) ai.
Proof.
  intros Hi H0.
  assert (Sentence.known_safes s = Some (Sentence.cells s)) as Hks.
  { unfold Sentence.known_safes. by rewrite bool_decide_eq_true_2. }
  assert (Sentence.known_mines (narrowed_safe (Sentence.cells s) s) = Some ∅) as Hkm.
  { unfold Sentence.known_mines, narrowed_safe. simpl.
    rewrite difference_diag_L, size_empty, H0. by rewrite bool_decide_eq_true_2. }
  unfold MinesweeperAI.conclude. rewrite Hi. cbv zeta. rewrite Hks.
  rewrite mark_all_safe_lookup, Hi. simpl. rewrite Hkm.
  apply mark_all_mines_empty.
Qed.

Lemma conclude_resolved_mines (ai : MinesweeperAI.t) (i : nat) (s : Sentence.t) :
  MinesweeperAI.knowledge ai !! i = Some s →
  Sentence.count s ≠ 0%Z →
  Sentence.count s = Z.of_nat (size (Sentence.cells s)) →
  MinesweeperAI.conclude ai i = MinesweeperAI.mark_all_mines (Sentence.cells s) ai.
Proof.
  intros Hi H0 Hn.
  assert (Sentence.known_safes s = None) as Hks.
  { unfold Sentence.known_safes. by rewrite bool_decide_eq_false_2. }
  assert (Sentence.known_mines s = Some (Sentence.cells s)) as Hkm.
  { unfold Sentence.known_mines. by rewrite bool_decide_eq_true_2. }
  unfold MinesweeperAI.conclude. rewrite Hi. cbv zeta. rewrite Hks, Hi, Hkm. done.
Qed.

Lemma conclude_unresolved (ai : MinesweeperAI.t) (i : nat) (s : Sentence.t) :
  MinesweeperAI.knowledge ai !! i = Some s →
  Sentence.count s ≠ 0%Z →
  Sentence.count s ≠ Z.of_nat (size (Sentence.cells s)) →
  MinesweeperAI.conclude ai i = ai.
Proof.
  intros Hi H0 Hn.
  assert (Sentence.known_safes s = None) as Hks.
  { unfold Sentence.known_safes. by rewrite bool_decide_eq_false_2. }
  assert (Sentence.known_mines s = None) as Hkm.
  { unfold Sentence.known_mines. by rewrite bool_decide_eq_false_2. }
  unfold MinesweeperAI.conclude. rewrite Hi. cbv zeta. rewrite Hks, Hi, Hkm. done.
Qed.

(** X11 — what step 4 does with the sentence in one slot of the list. A
    sentence with count 0 has all its cells marked safe; a sentence with
    a non-zero count equal to its number of cells has all its cells
    marked as mines; in both cases the sentence is left in its slot as
    [{} = 0]. Any other sentence leaves the state as it is. *)
Theorem X11_resolved_sentence_is_emptied (ai : MinesweeperAI.t) (i : nat)
    (s : Sentence.t) :
  MinesweeperAI.knowledge ai !! i = Some s →
  (Sentence.count s = 0%Z →
   MinesweeperAI.conclude ai i = MinesweeperAI.mark_all_safe (Sentence.cells s) ai ∧
   Sentence.cells s ⊆ MinesweeperAI.safes (MinesweeperAI.conclude ai i) ∧
   MinesweeperAI.knowledge (MinesweeperAI.conclude ai i) !! i
   = Some (Sentence.mk (Sentence.oid s) ∅ 0)) ∧
  (Sentence.count s ≠ 0%Z → Sentence.count s = Z.of_nat (size (Sentence.cells s)) →
   MinesweeperAI.conclude ai i = MinesweeperAI.mark_all_mines (Sentence.cells s) ai ∧
   Sentence.cells s ⊆ MinesweeperAI.mines (MinesweeperAI.conclude ai i) ∧
   MinesweeperAI.knowledge (MinesweeperAI.conclude ai i) !! i
   = Some (Sentence.mk (Sentence.oid s) ∅ 0)) ∧
  (Sentence.count s ≠ 0%Z → Sentence.count s ≠ Z.of_nat (size (Sentence.cells s)) →
   MinesweeperAI.conclude ai i = ai).
Proof.
  intros Hi. split_and!.
  - intros H0. rewrite (conclude_resolved_safe ai i s Hi H0). split_and!; [done| |].
    + rewrite mark_all_safe_bulk. simpl. apply union_subseteq_l.
    + rewrite mark_all_safe_lookup, Hi. simpl. unfold narrowed_safe.
      by rewrite difference_diag_L, H0.
  - intros H0 Hn. rewrite (conclude_resolved_mines ai i s Hi H0 Hn).
    split_and!; [done| |].
    + rewrite mark_all_mines_bulk. simpl. apply union_subseteq_l.
    + rewrite mark_all_mines_lookup, Hi. simpl. unfold narrowed_mines.
      rewrite difference_diag_L. do 2 f_equal.
      assert (Sentence.cells s ∩ Sentence.cells s = Sentence.cells s) as ->.
      { apply set_eq. intros x. rewrite elem_of_intersection. tauto. }
      lia.
  - intros H0 Hn. by apply (conclude_unresolved ai i s).
Qed.

Lemma X11_resolved_sentence_is_emptied_witness :
  MinesweeperAI.knowledge state_A !! 0 = Some (Sentence.mk 0 {[ (0, 3)%Z ]} 0) ∧
  (Sentence.count (Sentence.mk 0 {[ (0, 3)%Z ]} 0) = 0%Z →
   MinesweeperAI.conclude state_A 0
   = MinesweeperAI.mark_all_safe (Sentence.cells (Sentence.mk 0 {[ (0, 3)%Z ]} 0)) state_A ∧
   Sentence.cells (Sentence.mk 0 {[ (0, 3)%Z ]} 0)
     ⊆ MinesweeperAI.safes (MinesweeperAI.conclude state_A 0) ∧
   MinesweeperAI.knowledge (MinesweeperAI.conclude state_A 0) !! 0
   = Some (Sentence.mk (Sentence.oid (Sentence.mk 0 {[ (0, 3)%Z ]} 0)) ∅ 0)) ∧
  (Sentence.count (Sentence.mk 0 {[ (0, 3)%Z ]} 0) ≠ 0%Z →
   Sentence.count (Sentence.mk 0 {[ (0, 3)%Z ]} 0)
   = Z.of_nat (size (Sentence.cells (Sentence.mk 0 {[ (0, 3)%Z ]} 0))) →
   MinesweeperAI.conclude state_A 0
   = MinesweeperAI.mark_all_mines (Sentence.cells (Sentence.mk 0 {[ (0, 3)%Z ]} 0)) state_A ∧
   Sentence.cells (Sentence.mk 0 {[ (0, 3)%Z ]} 0)
     ⊆ MinesweeperAI.mines (MinesweeperAI.conclude state_A 0) ∧
   MinesweeperAI.knowledge (MinesweeperAI.conclude state_A 0) !! 0
   = Some (Sentence.mk (Sentence.oid (Sentence.mk 0 {[ (0, 3)%Z ]} 0)) ∅ 0)) ∧
  (Sentence.count (Sentence.mk 0 {[ (0, 3)%Z ]} 0) ≠ 0%Z →
   Sentence.count (Sentence.mk 0 {[ (0, 3)%Z ]} 0)
   ≠ Z.of_nat (size (Sentence.cells (Sentence.mk 0 {[ (0, 3)%Z ]} 0))) →
   MinesweeperAI.conclude state_A 0 = state_A).
Proof.
  split; [reflexivity|].
  apply (X11_resolved_sentence_is_emptied state_A 0 (Sentence.mk 0 {[ (0, 3)%Z ]} 0)).
  reflexivity.
Defined.

Lemma narrows_refl (ai : MinesweeperAI.t) : narrows ai ai.
Proof.
  unfold narrows. split_and!; try done.
  apply Forall_Forall2_diag, Forall_forall. intros s _. split_and!; [done|done|].
  apply subseteq_difference_l. done.
Qed.

Lemma narrows_trans (ai1 ai2 ai3 : MinesweeperAI.t) :
  narrows ai1 ai2 → narrows ai2 ai3 → narrows ai1 ai3.
Proof.
  intros (Hh & Hw & Hmv & Hn & Hs & Hm & HK) (Hh' & Hw' & Hmv' & Hn' & Hs' & Hm' & HK').
  unfold narrows. split_and!; try congruence; try (by etrans).
  eapply Forall2_trans; [|exact HK|exact HK'].
  intros s s' s'' (Ho & Hsub & Hkeep) (Ho' & Hsub' & Hkeep').
  split_and!; [congruence|by etrans|].
  intros x [Hx Hk]%elem_of_difference. apply Hkeep'.
  apply elem_of_difference. split; [|done].
  apply Hkeep. apply elem_of_difference. split; [done|].
  intros [H|H]%elem_of_union; apply Hk, elem_of_union; [left; by apply Hs'|right; by apply Hm'].
Qed.

Lemma mark_safe_narrows (c : Cell) (ai : MinesweeperAI.t) :
  narrows ai (MinesweeperAI.mark_safe c ai).
Proof.
  unfold narrows. simpl. split_and!; try done; [apply union_subseteq_r|].
  apply Forall2_fmap_r, Forall_Forall2_diag, Forall_forall. intros s _.
  unfold compose. cbv beta. rewrite sentence_mark_safe_oid, sentence_mark_safe_cells.
  split_and!; [done|apply subseteq_difference_l; done|].
  intros x. rewrite !elem_of_difference, !elem_of_union, elem_of_singleton. tauto.
Qed.

Lemma mark_mine_narrows (c : Cell) (ai : MinesweeperAI.t) :
  narrows ai (MinesweeperAI.mark_mine c ai).
Proof.
  unfold narrows. simpl. split_and!; try done; [apply union_subseteq_r|].
  apply Forall2_fmap_r, Forall_Forall2_diag, Forall_forall. intros s _.
  unfold compose. cbv beta. rewrite sentence_mark_mine_oid, sentence_mark_mine_cells.
  split_and!; [done|apply subseteq_difference_l; done|].
  intros x. rewrite !elem_of_difference, !elem_of_union, elem_of_singleton. tauto.
Qed.

Lemma foldl_narrows {A : Type} (f : MinesweeperAI.t → A → MinesweeperAI.t) (l : list A) :
  (∀ ai c, narrows ai (f ai c)) → ∀ ai, narrows ai (foldl f ai l).
Proof.
  intros Hf. induction l as [|c l IH]; intros ai; simpl; [apply narrows_refl|].
  eapply narrows_trans; [apply Hf|apply IH].
Qed.

Lemma conclude_narrows (ai : MinesweeperAI.t) (i : nat) :
  narrows ai (MinesweeperAI.conclude ai i).
Proof.
  unfold MinesweeperAI.conclude.
  destruct (MinesweeperAI.knowledge ai !! i) as [s|]; [|apply narrows_refl].
  set (ai1 := match Sentence.known_safes s with
              | Some cs => MinesweeperAI.mark_all_safe cs ai
              | None => ai end).
  assert (narrows ai ai1) as H1.
  { subst ai1. destruct (Sentence.known_safes s); [|apply narrows_refl].
    apply foldl_narrows. intros a c. apply mark_safe_narrows. }
  destruct (MinesweeperAI.knowledge ai1 !! i) as [s'|]; [|done].
  destruct (Sentence.known_mines s'); [|done].
  eapply narrows_trans; [exact H1|].
  apply foldl_narrows. intros a c. apply mark_mine_narrows.
Qed.

(** X12 — step 4 of [add_knowledge] narrows the sentences in place: when
    it is over the list holds the same objects at the same places, each
    with a cell set included in what it was and missing only cells that
    are now in [safes] or [mines]; [moves_made] and the dimensions are
    as they were, and [safes] and [mines] include what they were. *)
Theorem X12_step_4_narrows_in_place (ai : MinesweeperAI.t) :
  narrows ai (MinesweeperAI.conclusions ai).
Proof.
  unfold MinesweeperAI.conclusions. apply foldl_narrows. apply conclude_narrows.
Qed.

(** ** Step 5 of [add_knowledge] *)

Lemma extends_refl (ai : MinesweeperAI.t) : extends ai ai.
Proof.
  unfold extends. split_and!; try done.
  apply Forall_forall. intros s Hs. by left.
Qed.

Lemma extends_trans (ai1 ai2 ai3 : MinesweeperAI.t) :
  extends ai1 ai2 → extends ai2 ai3 → extends ai1 ai3.
Proof.
  intros (Hh & Hw & Hmv & Hs & Hm & Hn & HK) (Hh' & Hw' & Hmv' & Hs' & Hm' & Hn' & HK').
  unfold extends. split_and!; try congruence; [lia|].
  apply Forall_forall. intros s Hin.
  destruct (proj1 (Forall_forall _ _) HK' s Hin) as [Hin2|Hnew]; [|right; lia].
  destruct (proj1 (Forall_forall _ _) HK s Hin2) as [Hin1|Hnew]; [by left|right; lia].
Qed.

Lemma list_remove_elem_of (x s : Sentence.t) (l : list Sentence.t) :
  s ∈ MinesweeperAI.list_remove x l → s ∈ l.
Proof.
  induction l as [|y l IH]; simpl; [done|].
  destruct (Sentence.eqb y x).
  - intros Hs. by right.
  - intros [->|Hs]%elem_of_cons; [by left|right; by apply IH].
Qed.

Lemma compare_pair_extends (s1 s2 : Sentence.t) (ai : MinesweeperAI.t) :
  extends ai (MinesweeperAI.compare_pair s1 s2 ai).
Proof.
  unfold MinesweeperAI.compare_pair.
  destruct (Sentence.is_ s1 s2); [apply extends_refl|].
  destruct (Sentence.eqb s1 s2).
  { unfold extends. simpl. split_and!; try done.
    apply Forall_forall. intros s Hs. left. by eapply list_remove_elem_of. }
  case_bool_decide; [|apply extends_refl].
  destruct (MinesweeperAI.in_knowledge _ _ ai); [apply extends_refl|].
  unfold extends. simpl. split_and!; try done; [lia|].
  apply Forall_app. split.
  - apply Forall_forall. intros s Hs. by left.
  - apply Forall_singleton. right. simpl. lia.
Qed.

Lemma inner_loop_extends (fuel : nat) (s1 : Sentence.t) :
  ∀ (j : nat) (ai ai' : MinesweeperAI.t),
    MinesweeperAI.inner_loop fuel s1 j ai = Some ai' → extends ai ai'.
Proof.
  induction fuel as [|fuel IH]; intros j ai ai'; simpl; [done|].
  destruct (MinesweeperAI.knowledge ai !! j) as [s2|].
  - intros Hrun. eapply extends_trans; [apply (compare_pair_extends s1 s2)|by eapply IH].
  - intros [= <-]. apply extends_refl.
Qed.

Lemma outer_loop_extends (fuel : nat) :
  ∀ (i : nat) (ai ai' : MinesweeperAI.t),
    MinesweeperAI.outer_loop fuel i ai = Some ai' → extends ai ai'.
Proof.
  induction fuel as [|fuel IH]; intros i ai ai'; simpl; [done|].
  destruct (MinesweeperAI.knowledge ai !! i) as [s1|].
  - destruct (MinesweeperAI.inner_loop fuel s1 0 ai) as [ai1|] eqn:Hin; [|done].
    intros Hrun. eapply extends_trans; [by eapply inner_loop_extends|by eapply IH].
  - intros [= <-]. apply extends_refl.
Qed.

(** X13 — step 5 of [add_knowledge] marks no cell and changes no
    sentence: when it returns, [moves_made], [safes], [mines] and the
    dimensions are as they were, and every sentence of the list is a
    sentence that was in the list, unchanged, or a new object. *)
Theorem X13_step_5_only_rearranges_the_list (fuel : nat) (ai ai' : MinesweeperAI.t) :
  MinesweeperAI.inferences fuel ai = Some ai' → extends ai ai'.
Proof. apply outer_loop_extends. Qed.

Lemma X13_step_5_only_rearranges_the_list_witness :
  MinesweeperAI.inferences 10
    (MinesweeperAI.conclusions (MinesweeperAI.new_sentence (1, 1)%Z 1 state_D))
  = Some state_D' ∧
  extends (MinesweeperAI.conclusions (MinesweeperAI.new_sentence (1, 1)%Z 1 state_D))
          state_D'.
Proof.
  split; [vm_compute; reflexivity|].
  apply (X13_step_5_only_rearranges_the_list 10). vm_compute. reflexivity.
Defined.

(** ** [add_knowledge] as a whole *)

Lemma new_sentence_frame (cell : Cell) (count : Z) (ai : MinesweeperAI.t) :
  MinesweeperAI.height (MinesweeperAI.new_sentence cell count ai) = MinesweeperAI.height ai ∧
  MinesweeperAI.width (MinesweeperAI.new_sentence cell count ai) = MinesweeperAI.width ai ∧
  MinesweeperAI.moves_made (MinesweeperAI.new_sentence cell count ai)
  = {[cell]} ∪ MinesweeperAI.moves_made ai ∧
  MinesweeperAI.safes (MinesweeperAI.new_sentence cell count ai)
  = {[cell]} ∪ MinesweeperAI.safes ai ∧
  MinesweeperAI.mines (MinesweeperAI.new_sentence cell count ai) = MinesweeperAI.mines ai.
Proof. by split_and!. Qed.

(** X14 — when [add_knowledge] returns, [moves_made] is what it was plus
    the observed cell, the observed cell is in [safes], [mines] holds
    what it held, and the dimensions of the board are unchanged. *)
Theorem X14_add_knowledge_records_the_move (fuel : nat) (cell : Cell) (count : Z)
    (ai ai' : MinesweeperAI.t) :
  MinesweeperAI.add_knowledge fuel cell count ai = Some ai' →
  MinesweeperAI.moves_made ai' = {[cell]} ∪ MinesweeperAI.moves_made ai ∧
  {[cell]} ∪ MinesweeperAI.safes ai ⊆ MinesweeperAI.safes ai' ∧
  MinesweeperAI.mines ai ⊆ MinesweeperAI.mines ai' ∧
  MinesweeperAI.height ai' = MinesweeperAI.height ai ∧
  MinesweeperAI.width ai' = MinesweeperAI.width ai.
Proof.
  intros Hrun.
  pose proof (add_knowledge_moves_made _ _ _ _ _ Hrun) as Hmoves.
  unfold MinesweeperAI.add_knowledge in Hrun.
  destruct (outer_loop_extends _ _ _ _ Hrun) as (Hh & Hw & _ & Hs & Hm & _).
  set (ai0 := MinesweeperAI.new_sentence cell count ai) in *.
  destruct (foldl_narrows MinesweeperAI.conclude
              (seq 0 (length (MinesweeperAI.knowledge ai0))) conclude_narrows ai0)
    as (Hh' & Hw' & _ & _ & Hs' & Hm' & _).
  fold (MinesweeperAI.conclusions ai0) in Hh', Hw', Hs', Hm'.
  destruct (new_sentence_frame cell count ai) as (Hh0 & Hw0 & _ & Hs0 & Hm0).
  fold ai0 in Hh0, Hw0, Hs0, Hm0.
  split_and!; [done| | |congruence|congruence].
  - rewrite Hs, <- Hs0. exact Hs'.
  - rewrite Hm, <- Hm0. exact Hm'.
Qed.

Lemma X14_add_knowledge_records_the_move_witness :
  MinesweeperAI.add_knowledge 10 (1, 1)%Z 1 state_D = Some state_D' ∧
  MinesweeperAI.moves_made state_D' = {[(1, 1)%Z]} ∪ MinesweeperAI.moves_made state_D ∧
  {[(1, 1)%Z]} ∪ MinesweeperAI.safes state_D ⊆ MinesweeperAI.safes state_D' ∧
  MinesweeperAI.mines state_D ⊆ MinesweeperAI.mines state_D' ∧
  MinesweeperAI.height state_D' = MinesweeperAI.height state_D ∧
  MinesweeperAI.width state_D' = MinesweeperAI.width state_D.
Proof.
  split; [vm_compute; reflexivity|].
  apply (X14_add_knowledge_records_the_move 10 (1, 1)%Z 1 state_D state_D').
  vm_compute. reflexivity.
Defined.

Lemma add_knowledge_moves_in_safes (fuel : nat) (cell : Cell) (count : Z)
    (ai ai' : MinesweeperAI.t) :
  MinesweeperAI.add_knowledge fuel cell count ai = Some ai' →
  MinesweeperAI.moves_made ai ⊆ MinesweeperAI.safes ai →
  MinesweeperAI.moves_made ai' ⊆ MinesweeperAI.safes ai'.
Proof.
  intros Hrun Hsub.
  pose proof (add_knowledge_moves_made _ _ _ _ _ Hrun) as Hmoves.
  pose proof (add_knowledge_grows _ _ _ _ _ Hrun) as (_ & Hs & _).
  unfold MinesweeperAI.add_knowledge in Hrun.
  destruct (outer_loop_extends _ _ _ _ Hrun) as (_ & _ & _ & Hs1 & _).
  pose proof (conclusions_grows (MinesweeperAI.new_sentence cell count ai)) as (_ & Hs2 & _).
  rewrite Hmoves. intros x [->%elem_of_singleton|Hx]%elem_of_union.
  - rewrite Hs1. apply Hs2. simpl. apply elem_of_union_l, elem_of_singleton. done.
  - by apply Hs, Hsub.
Qed.

Lemma play_moves_in_safes (fuel : nat) (observations : list (Cell * Z)) :
  ∀ ai ai' : MinesweeperAI.t,
    play fuel observations ai = Some ai' →
    MinesweeperAI.moves_made ai ⊆ MinesweeperAI.safes ai →
    MinesweeperAI.moves_made ai' ⊆ MinesweeperAI.safes ai'.
Proof.
  induction observations as [|[cell count] rest IH]; intros ai ai'; simpl.
  - by intros [= <-].
  - destruct (MinesweeperAI.add_knowledge fuel cell count ai) as [ai1|] eqn:Hadd; [|done].
    intros Hplay Hsub. apply (IH ai1 ai' Hplay).
    by eapply add_knowledge_moves_in_safes.
Qed.

Lemma play_moves_made (fuel : nat) (observations : list (Cell * Z)) :
  ∀ ai ai' : MinesweeperAI.t,
    play fuel observations ai = Some ai' →
    MinesweeperAI.moves_made ai' = list_to_set observations.*1 ∪ MinesweeperAI.moves_made ai.
Proof.
  induction observations as [|[cell count] rest IH]; intros ai ai'; simpl.
  - intros [= <-]. apply set_eq. intros x. rewrite elem_of_union, elem_of_empty. tauto.
  - destruct (MinesweeperAI.add_knowledge fuel cell count ai) as [ai1|] eqn:Hadd; [|done].
    intros Hplay. rewrite (IH ai1 ai' Hplay), (add_knowledge_moves_made _ _ _ _ _ Hadd).
    apply set_eq. intros x. rewrite !elem_of_union. tauto.
Qed.

(** X15 — whatever the observations, a game played from the initial
    state leaves in [moves_made] exactly the observed cells, and every
    one of them is in [safes]. *)
Theorem X15_played_cells_are_safe (fuel : nat) (height width : Z)
    (observations : list (Cell * Z)) (ai : MinesweeperAI.t) :
  play fuel observations (MinesweeperAI.init height width) = Some ai →
  MinesweeperAI.moves_made ai = list_to_set observations.*1 ∧
  MinesweeperAI.moves_made ai ⊆ MinesweeperAI.safes ai.
Proof.
  intros Hplay. split.
  - rewrite (play_moves_made _ _ _ _ Hplay). simpl.
    apply set_eq. intros x. rewrite elem_of_union, elem_of_empty. tauto.
  - apply (play_moves_in_safes _ _ _ _ Hplay). done.
Qed.

Lemma X15_played_cells_are_safe_witness :
  play 10 game_D (MinesweeperAI.init 2 3) = Some state_D ∧
  MinesweeperAI.moves_made state_D = list_to_set game_D.*1 ∧
  MinesweeperAI.moves_made state_D ⊆ MinesweeperAI.safes state_D.
Proof.
  split; [vm_compute; reflexivity|].
  apply (X15_played_cells_are_safe 10 2 3 game_D state_D).
  vm_compute. reflexivity.
Defined.

Lemma clean_init (height width : Z) : clean (MinesweeperAI.init height width).
Proof. unfold clean. simpl. apply Forall_nil_2. Qed.

Lemma mark_safe_clean (c : Cell) (ai : MinesweeperAI.t) :
  clean ai → clean (MinesweeperAI.mark_safe c ai).
Proof.
  unfold clean. simpl. intros Hai. apply Forall_fmap.
  eapply Forall_impl; [exact Hai|]. intros s [Hmv Hmi]. simpl.
  rewrite sentence_mark_safe_cells. split; intros x [Hx _]%elem_of_difference.
  - by apply Hmv.
  - by apply Hmi.
Qed.

Lemma mark_mine_clean (c : Cell) (ai : MinesweeperAI.t) :
  clean ai → clean (MinesweeperAI.mark_mine c ai).
Proof.
  unfold clean. simpl. intros Hai. apply Forall_fmap.
  eapply Forall_impl; [exact Hai|]. intros s [Hmv Hmi]. simpl.
  rewrite sentence_mark_mine_cells. split; intros x [Hx Hc]%elem_of_difference.
  - by apply Hmv.
  - intros [Hx'|Hx']%elem_of_union; [by apply Hc|by apply (Hmi x)].
Qed.

Lemma foldl_clean (f : MinesweeperAI.t → Cell → MinesweeperAI.t) (l : list Cell) :
  (∀ ai c, clean ai → clean (f ai c)) → ∀ ai, clean ai → clean (foldl f ai l).
Proof.
  intros Hf. induction l as [|c l IH]; intros ai Hai; simpl; [done|].
  by apply IH, Hf.
Qed.

Lemma conclude_clean (ai : MinesweeperAI.t) (i : nat) :
  clean ai → clean (MinesweeperAI.conclude ai i).
Proof.
  intros Hai. unfold MinesweeperAI.conclude.
  destruct (MinesweeperAI.knowledge ai !! i) as [s|]; [|done].
  set (ai1 := match Sentence.known_safes s with
              | Some cs => MinesweeperAI.mark_all_safe cs ai
              | None => ai end).
  assert (clean ai1) as H1.
  { subst ai1. destruct (Sentence.known_safes s); [|done].
    apply foldl_clean; [|done]. intros a c. apply mark_safe_clean. }
  destruct (MinesweeperAI.knowledge ai1 !! i) as [s'|]; [|done].
  destruct (Sentence.known_mines s'); [|done].
  apply foldl_clean; [|done]. intros a c. apply mark_mine_clean.
Qed.

Lemma conclusions_clean (ai : MinesweeperAI.t) :
  clean ai → clean (MinesweeperAI.conclusions ai).
Proof.
  unfold MinesweeperAI.conclusions.
  generalize (seq 0 (length (MinesweeperAI.knowledge ai))). intros l.
  revert ai. induction l as [|i l IH]; intros ai Hai; simpl; [done|].
  by apply IH, conclude_clean.
Qed.

Lemma new_sentence_clean (cell : Cell) (count : Z) (ai : MinesweeperAI.t) :
  clean ai → clean (MinesweeperAI.new_sentence cell count ai).
Proof.
  intros Hai.
  destruct (new_sentence_appends cell count ai) as (s & HK & Hcells & _).
  destruct (new_sentence_frame cell count ai) as (_ & _ & Hmv & _ & Hmi).
  unfold clean. rewrite HK, Hmv, Hmi. apply Forall_app. split.
  - apply Forall_fmap. eapply Forall_impl; [exact Hai|]. intros s0 [H1 H2]. simpl.
    rewrite sentence_mark_safe_cells. split; intros x [Hx Hc]%elem_of_difference.
    + intros [Hx'|Hx']%elem_of_union; [by apply Hc|by apply (H1 x)].
    + by apply H2.
  - apply Forall_singleton. split; intros x Hx%Hcells.
    + destruct Hx as (_ & Hne & _ & Hmoves & _).
      intros [Hx'%elem_of_singleton|Hx']%elem_of_union; [done|by apply Hmoves].
    + by destruct Hx as (_ & _ & _ & _ & Hmines).
Qed.

Lemma compare_pair_clean (s1 s2 : Sentence.t) (ai : MinesweeperAI.t) :
  s2 ∈ MinesweeperAI.knowledge ai →
  clean ai → clean (MinesweeperAI.compare_pair s1 s2 ai).
Proof.
  intros Hs2 Hai. unfold MinesweeperAI.compare_pair.
  destruct (Sentence.is_ s1 s2); [done|].
  destruct (Sentence.eqb s1 s2).
  { unfold clean. simpl. by apply list_remove_Forall. }
  case_bool_decide; [|done].
  destruct (MinesweeperAI.in_knowledge _ _ ai); [done|].
  unfold clean. simpl. apply Forall_app. split; [exact Hai|].
  apply Forall_singleton. simpl.
  destruct (proj1 (Forall_forall _ _) Hai s2 Hs2) as [H1 H2].
  split; intros x [Hx _]%elem_of_difference; [by apply H1|by apply H2].
Qed.

Lemma inner_loop_clean (fuel : nat) (s1 : Sentence.t) :
  ∀ (j : nat) (ai ai' : MinesweeperAI.t),
    clean ai → MinesweeperAI.inner_loop fuel s1 j ai = Some ai' → clean ai'.
Proof.
  induction fuel as [|fuel IH]; intros j ai ai' Hai; simpl; [done|].
  destruct (MinesweeperAI.knowledge ai !! j) as [s2|] eqn:Hj.
  - apply IH. apply compare_pair_clean; [|done].
    apply list_elem_of_lookup. by exists j.
  - by intros [= <-].
Qed.

Lemma outer_loop_clean (fuel : nat) :
  ∀ (i : nat) (ai ai' : MinesweeperAI.t),
    clean ai → MinesweeperAI.outer_loop fuel i ai = Some ai' → clean ai'.
Proof.
  induction fuel as [|fuel IH]; intros i ai ai' Hai; simpl; [done|].
  destruct (MinesweeperAI.knowledge ai !! i) as [s1|].
  - destruct (MinesweeperAI.inner_loop fuel s1 0 ai) as [ai1|] eqn:Hin; [|done].
    apply IH. by eapply inner_loop_clean.
  - by intros [= <-].
Qed.

Lemma add_knowledge_clean (fuel : nat) (cell : Cell) (count : Z)
    (ai ai' : MinesweeperAI.t) :
  clean ai → MinesweeperAI.add_knowledge fuel cell count ai = Some ai' → clean ai'.
Proof.
  intros Hai. unfold MinesweeperAI.add_knowledge, MinesweeperAI.inferences.
  apply outer_loop_clean, conclusions_clean. by apply new_sentence_clean.
Qed.

Lemma play_clean (fuel : nat) (observations : list (Cell * Z)) :
  ∀ ai ai' : MinesweeperAI.t,
    clean ai → play fuel observations ai = Some ai' → clean ai'.
Proof.
  induction observations as [|[cell count] rest IH]; intros ai ai' Hai; simpl.
  - by intros [= <-].
  - destruct (MinesweeperAI.add_knowledge fuel cell count ai) as [ai1|] eqn:Hadd; [|done].
    apply IH. by eapply add_knowledge_clean.
Qed.

(** X16 — whatever the observations, in a state that a game played from
    the initial state has reached, no sentence of the list has a played
    cell or a known mine among its cells. (Cells known to be safe but not
    played can be among them.) *)
Theorem X16_no_sentence_holds_a_played_cell_or_known_mine (fuel : nat)
    (height width : Z) (observations : list (Cell * Z)) (ai : MinesweeperAI.t)
    (s : Sentence.t) (x : Cell) :
  play fuel observations (MinesweeperAI.init height width) = Some ai →
  s ∈ MinesweeperAI.knowledge ai → x ∈ Sentence.cells s →
  (x ∉ MinesweeperAI.moves_made ai) ∧ (x ∉ MinesweeperAI.mines ai).
Proof.
  intros Hplay Hs Hx.
  pose proof (play_clean _ _ _ _ (clean_init height width) Hplay) as Hclean.
  destruct (proj1 (Forall_forall _ _) Hclean s Hs) as [H1 H2].
  split; intros Hin; [by apply (H1 x)|by apply (H2 x)].
Qed.

Lemma X16_no_sentence_holds_a_played_cell_or_known_mine_witness :
  play 10 game_A (MinesweeperAI.init 1 5) = Some state_A ∧
  Sentence.mk 0 {[ (0, 3)%Z ]} 0 ∈ MinesweeperAI.knowledge state_A ∧
  (0, 3)%Z ∈ Sentence.cells (Sentence.mk 0 {[ (0, 3)%Z ]} 0) ∧
  ((0, 3)%Z ∉ MinesweeperAI.moves_made state_A) ∧
  ((0, 3)%Z ∉ MinesweeperAI.mines state_A).
Proof.
  split; [vm_compute; reflexivity|].
  split; [left|].
  split; [vm_compute; reflexivity|].
  apply (X16_no_sentence_holds_a_played_cell_or_known_mine 10 1 5 game_A state_A
           (Sentence.mk 0 {[ (0, 3)%Z ]} 0) (0, 3)%Z).
  - vm_compute. reflexivity.
  - left.
  - vm_compute. reflexivity.
Defined.

(** X17 — the knowledge of the player is true of the board: in a state
    reached from the initial one by valid observations, no cell of
    [safes] is a mine, every cell of [mines] is one, and every sentence of
    the list speaks of cells of the board and has for count the number of
    mines among its cells. *)
Theorem X17_knowledge_is_true_of_the_board (g : Minesweeper.t) (fuel : nat)
    (observations : list (Cell * Z)) (ai : MinesweeperAI.t) :
  Forall (valid_observation g) observations →
  play fuel observations
       (MinesweeperAI.init (Minesweeper.height g) (Minesweeper.width g)) = Some ai →
  (∀ x, x ∈ MinesweeperAI.safes ai → Minesweeper.is_mine g x = false) ∧
  (∀ x, x ∈ MinesweeperAI.mines ai → Minesweeper.is_mine g x = true) ∧
  (∀ s, s ∈ MinesweeperAI.knowledge ai →
        Sentence.count s = Z.of_nat (size (Sentence.cells s ∩ Minesweeper.mines g)) ∧
        ∀ x, x ∈ Sentence.cells s →
             in_bounds (Minesweeper.height g) (Minesweeper.width g) x = true).
Proof.
  intros Hvalid Hplay.
  assert (sound g ai) as [_ _ _ Hs Hm Hk].
  { eapply play_sound; [exact Hvalid|apply sound_init|exact Hplay]. }
  unfold Minesweeper.is_mine, Minesweeper.board. split_and!.
  - intros x Hx. apply bool_decide_eq_false_2. intros Hmine. by apply (Hs x).
  - intros x Hx. apply bool_decide_eq_true_2. by apply Hm.
  - intros s Hin. exact (proj1 (Forall_forall _ _) Hk s Hin).
Qed.

Lemma X17_knowledge_is_true_of_the_board_witness :
  Forall (valid_observation board_A) game_A ∧
  play 10 game_A (MinesweeperAI.init 1 5) = Some state_A ∧
  (∀ x, x ∈ MinesweeperAI.safes state_A → Minesweeper.is_mine board_A x = false) ∧
  (∀ x, x ∈ MinesweeperAI.mines state_A → Minesweeper.is_mine board_A x = true) ∧
  (∀ s, s ∈ MinesweeperAI.knowledge state_A →
        Sentence.count s
        = Z.of_nat (size (Sentence.cells s ∩ Minesweeper.mines board_A)) ∧
        ∀ x, x ∈ Sentence.cells s →
             in_bounds (Minesweeper.height board_A) (Minesweeper.width board_A) x = true).
Proof.
  split; [valid_game|].
  split; [vm_compute; reflexivity|].
  apply (X17_knowledge_is_true_of_the_board board_A 10 game_A state_A).
  - valid_game.
  - vm_compute. reflexivity.
Defined.

(** X18 — the sentence that step 3 of [add_knowledge] appends, for any
    state and any observation: its cells are the adjacent cells of the
    board that are neither in [moves_made] nor in [mines] (being in
    [safes] does not keep a cell out), and its count is the count
    observed less the number of adjacent cells that are in [mines]. The
    sentences already in the list lose the observed cell. *)
Theorem X18_the_sentence_of_an_observation (cell : Cell) (count : Z)
    (ai : MinesweeperAI.t) :
  MinesweeperAI.knowledge (MinesweeperAI.new_sentence cell count ai)
  = (Sentence.mark_safe cell <$> MinesweeperAI.knowledge ai)
    ++ [Sentence.mk (MinesweeperAI.next_oid ai)
          (neighbours (MinesweeperAI.height ai) (MinesweeperAI.width ai) cell
           ∖ (MinesweeperAI.moves_made ai ∪ MinesweeperAI.mines ai))
          (count
           - Z.of_nat (size (neighbours (MinesweeperAI.height ai)
                                        (MinesweeperAI.width ai) cell
                             ∩ MinesweeperAI.mines ai)))].
Proof.
  unfold MinesweeperAI.new_sentence.
  set (ai1 := MinesweeperAI.mark_safe cell (MinesweeperAI.add_move cell ai)).
  pose proof (scan_window_members ai1 cell (window cell) (∅, count)) as Hmem.
  pose proof (scan_window_count ai1 cell (window cell) (∅, count)) as Hcnt.
  remember (foldl (MinesweeperAI.scan_neighbor ai1 cell) (∅, count) (window cell))
    as acc eqn:Hacc. clear Hacc.
  change (MinesweeperAI.height ai1) with (MinesweeperAI.height ai) in *.
  change (MinesweeperAI.width ai1) with (MinesweeperAI.width ai) in *.
  change (MinesweeperAI.mines ai1) with (MinesweeperAI.mines ai) in *.
  change (MinesweeperAI.moves_made ai1)
    with ({[cell]} ∪ MinesweeperAI.moves_made ai) in *.
  change ((∅, count).1) with (∅ : gset Cell) in Hmem.
  change ((∅, count).2) with count in Hcnt.
  unfold MinesweeperAI.append_sentence, MinesweeperAI.knowledge at 1.
  change (MinesweeperAI.knowledge ai1)
    with (Sentence.mark_safe cell <$> MinesweeperAI.knowledge ai).
  change (MinesweeperAI.next_oid ai1) with (MinesweeperAI.next_oid ai).
  do 2 f_equal. apply sentence_eq; simpl; [done| |].
  - apply set_eq. intros x. rewrite Hmem. unfold neighbours.
    rewrite elem_of_difference, elem_of_list_to_set, list_elem_of_filter.
    rewrite !not_elem_of_union, elem_of_singleton, elem_of_empty. tauto.
  - rewrite Hcnt, size_neighbours_inter. do 3 f_equal.
    apply list_filter_iff. intros x. tauto.
Qed.

(** X20 — step 5 of a valid call loses no sentence: for every sentence
    that is in the list when step 5 starts, a sentence equal to it (same
    cells, same count) is in the list when step 5 returns; only
    duplicates go. *)
Theorem X20_step_5_loses_no_sentence (g : Minesweeper.t) (fuel fuel' : nat)
    (observations : list (Cell * Z)) (ai ai' : MinesweeperAI.t)
    (cell : Cell) (count : Z) (s : Sentence.t) :
  Forall (valid_observation g) observations →
  play fuel observations
       (MinesweeperAI.init (Minesweeper.height g) (Minesweeper.width g)) = Some ai →
  valid_observation g (cell, count) →
  MinesweeperAI.inferences fuel'
    (MinesweeperAI.conclusions (MinesweeperAI.new_sentence cell count ai)) = Some ai' →
  s ∈ MinesweeperAI.knowledge
        (MinesweeperAI.conclusions (MinesweeperAI.new_sentence cell count ai)) →
  ∃ s', s' ∈ MinesweeperAI.knowledge ai' ∧ Sentence.eqb s s' = true.
Proof.
  intros Hvalid Hplay Hv Hrun Hs.
  assert (sound g ai) as Hai.
  { eapply play_sound; [exact Hvalid|apply sound_init|exact Hplay]. }
  set (ai1 := MinesweeperAI.conclusions (MinesweeperAI.new_sentence cell count ai)) in *.
  assert (sound g ai1) as Hai1 by (by apply conclusions_sound, new_sentence_sound).
  assert (sound g ai') as Hai'
    by (eapply (outer_loop_sound g fuel' 0); [exact Hai1|exact Hrun]).
  pose proof (outer_loop_cell_sets g _ _ _ _ Hai1 Hrun) as Hcs.
  apply list_elem_of_lookup in Hs as [q Hq].
  assert (Sentence.cells s ∈ cell_sets (MinesweeperAI.knowledge ai1)) as Hin.
  { apply elem_of_cell_sets. by exists q, s. }
  apply Hcs, elem_of_cell_sets in Hin as (q' & s' & Hq' & Hc).
  exists s'. split; [apply list_elem_of_lookup; by exists q'|].
  apply eqb_true. split; [done|].
  apply (sentence_ok_count g); [|by apply (sound_lookup g ai' q')|done].
  by apply (sound_lookup g ai1 q).
Qed.

Lemma X20_step_5_loses_no_sentence_witness :
  Forall (valid_observation board_E) game_E ∧
  play 10 game_E (MinesweeperAI.init 3 3) = Some state_E ∧
  valid_observation board_E ((1, 1)%Z, 3%Z) ∧
  MinesweeperAI.inferences 20
    (MinesweeperAI.conclusions (MinesweeperAI.new_sentence (1, 1)%Z 3 state_E))
  = Some state_E' ∧
  sentence_E1 ∈ MinesweeperAI.knowledge
        (MinesweeperAI.conclusions (MinesweeperAI.new_sentence (1, 1)%Z 3 state_E)) ∧
  ∃ s', s' ∈ MinesweeperAI.knowledge state_E' ∧ Sentence.eqb sentence_E1 s' = true.
Proof.
  split; [valid_game|].
  split; [vm_compute; reflexivity|].
  split; [split_and!; vm_compute; reflexivity|].
  split; [vm_compute; reflexivity|].
  split; [apply list_elem_of_lookup; exists 1; vm_compute; reflexivity|].
  apply (X20_step_5_loses_no_sentence board_E 10 20 game_E state_E state_E'
           (1, 1)%Z 3%Z sentence_E1).
  - valid_game.
  - vm_compute. reflexivity.
  - split_and!; vm_compute; reflexivity.
  - vm_compute. reflexivity.
  - apply list_elem_of_lookup. exists 1. vm_compute. reflexivity.
Defined.

(** ** Step 5 on a pair of sentences *)

Lemma inner_loop_step (fuel : nat) (s1 s2 : Sentence.t) (j : nat) (ai : MinesweeperAI.t) :
  MinesweeperAI.knowledge ai !! j = Some s2 →
  MinesweeperAI.inner_loop (S fuel) s1 j ai
  = MinesweeperAI.inner_loop fuel s1 (S j) (MinesweeperAI.compare_pair s1 s2 ai).
Proof. intros Hj. simpl. by rewrite Hj. Qed.

Lemma inner_loop_stop (fuel : nat) (s1 : Sentence.t) (j : nat) (ai : MinesweeperAI.t) :
  MinesweeperAI.knowledge ai !! j = None →
  MinesweeperAI.inner_loop (S fuel) s1 j ai = Some ai.
Proof. intros Hj. simpl. by rewrite Hj. Qed.

Lemma outer_loop_step (fuel : nat) (s1 : Sentence.t) (i : nat) (ai ai1 : MinesweeperAI.t) :
  MinesweeperAI.knowledge ai !! i = Some s1 →
  MinesweeperAI.inner_loop fuel s1 0 ai = Some ai1 →
  MinesweeperAI.outer_loop (S fuel) i ai = MinesweeperAI.outer_loop fuel (S i) ai1.
Proof. intros Hi Hin. simpl. by rewrite Hi, Hin. Qed.

Lemma outer_loop_stop (fuel : nat) (i : nat) (ai : MinesweeperAI.t) :
  MinesweeperAI.knowledge ai !! i = None →
  MinesweeperAI.outer_loop (S fuel) i ai = Some ai.
Proof. intros Hi. simpl. by rewrite Hi. Qed.

Lemma eqb_false_cells (s s' : Sentence.t) :
  Sentence.cells s ≠ Sentence.cells s' → Sentence.eqb s s' = false.
Proof.
  intros Hne. unfold Sentence.eqb. by rewrite bool_decide_eq_false_2.
Qed.

Lemma compare_pair_same_object (s1 s2 : Sentence.t) (ai : MinesweeperAI.t) :
  Sentence.oid s1 = Sentence.oid s2 → MinesweeperAI.compare_pair s1 s2 ai = ai.
Proof.
  intros Ho. unfold MinesweeperAI.compare_pair, Sentence.is_.
  by rewrite bool_decide_eq_true_2.
Qed.

Lemma compare_pair_not_subset (s1 s2 : Sentence.t) (ai : MinesweeperAI.t) :
  Sentence.oid s1 ≠ Sentence.oid s2 →
  ¬ Sentence.cells s1 ⊆ Sentence.cells s2 →
  MinesweeperAI.compare_pair s1 s2 ai = ai.
Proof.
  intros Ho Hsub. unfold MinesweeperAI.compare_pair, Sentence.is_.
  rewrite bool_decide_eq_false_2 by done.
  rewrite eqb_false_cells by (intros Heq; apply Hsub; by rewrite Heq).
  by rewrite bool_decide_eq_false_2.
Qed.

Lemma compare_pair_subset (s1 s2 : Sentence.t) (ai : MinesweeperAI.t) :
  Sentence.oid s1 ≠ Sentence.oid s2 →
  Sentence.cells s1 ≠ Sentence.cells s2 →
  Sentence.cells s1 ⊆ Sentence.cells s2 →
  MinesweeperAI.compare_pair s1 s2 ai
  = if MinesweeperAI.in_knowledge (Sentence.cells s2 ∖ Sentence.cells s1)
         (Sentence.count s2 - Sentence.count s1) ai
    then ai
    else MinesweeperAI.append_sentence (Sentence.cells s2 ∖ Sentence.cells s1)
           (Sentence.count s2 - Sentence.count s1) ai.
Proof.
  intros Ho Hne Hsub. unfold MinesweeperAI.compare_pair, Sentence.is_.
  rewrite bool_decide_eq_false_2 by done.
  rewrite eqb_false_cells by done.
  by rewrite bool_decide_eq_true_2.
Qed.

Section Pair.

Variables (A B : Sentence.t) (n : nat).
Hypothesis oid_AB : Sentence.oid A ≠ Sentence.oid B.
Hypothesis oid_A : Sentence.oid A ≠ n.
Hypothesis oid_B : Sentence.oid B ≠ n.
Hypothesis A_nonempty : Sentence.cells A ≠ ∅.
Hypothesis A_subset : Sentence.cells A ⊆ Sentence.cells B.
Hypothesis A_strict : Sentence.cells A ≠ Sentence.cells B.

Let C : Sentence.t :=
  Sentence.mk n (Sentence.cells B ∖ Sentence.cells A)
              (Sentence.count B - Sentence.count A).

Lemma pair_in_A : ∃ a, a ∈ Sentence.cells A.
Proof. exact (set_choose_L (Sentence.cells A) A_nonempty). Qed.

Lemma pair_in_C : ∃ c, c ∈ Sentence.cells B ∧ c ∉ Sentence.cells A.
Proof.
  destruct (set_choose_L (Sentence.cells B ∖ Sentence.cells A)) as [c Hc].
  - intros Hemp. apply A_strict. apply set_eq. intros x. split; [apply A_subset|].
    intros Hx. destruct (decide (x ∈ Sentence.cells A)) as [|Hn]; [done|].
    exfalso. apply (not_elem_of_empty (C:=gset Cell) x). rewrite <- Hemp.
    by apply elem_of_difference.
  - apply elem_of_difference in Hc. by exists c.
Qed.

Lemma pair_A_ne_C : Sentence.cells A ≠ Sentence.cells C.
Proof.
  destruct pair_in_A as [a Ha]. simpl. intros Heq.
  assert (a ∈ Sentence.cells B ∖ Sentence.cells A) as Hd by (by rewrite <- Heq).
  apply elem_of_difference in Hd as [_ Hn]. by apply Hn.
Qed.

Lemma pair_B_ne_C : Sentence.cells B ≠ Sentence.cells C.
Proof.
  destruct pair_in_A as [a Ha]. simpl. intros Heq.
  pose proof (A_subset a Ha) as Hb. rewrite Heq in Hb.
  apply elem_of_difference in Hb as [_ Hn]. by apply Hn.
Qed.

Lemma pair_A_not_in_C : ¬ Sentence.cells A ⊆ Sentence.cells C.
Proof.
  destruct pair_in_A as [a Ha]. simpl. intros Hsub.
  pose proof (Hsub a Ha) as Hc. apply elem_of_difference in Hc as [_ Hn]. by apply Hn.
Qed.

Lemma pair_B_not_in_A : ¬ Sentence.cells B ⊆ Sentence.cells A.
Proof.
  intros Hsub. apply A_strict. apply set_eq. intros x. split; [apply A_subset|apply Hsub].
Qed.

Lemma pair_B_not_in_C : ¬ Sentence.cells B ⊆ Sentence.cells C.
Proof.
  destruct pair_in_A as [a Ha]. simpl. intros Hsub.
  pose proof (Hsub a (A_subset a Ha)) as Hc.
  apply elem_of_difference in Hc as [_ Hn]. by apply Hn.
Qed.

Lemma pair_C_not_in_A : ¬ Sentence.cells C ⊆ Sentence.cells A.
Proof.
  destruct pair_in_C as (c & Hb & Hn). simpl. intros Hsub. apply Hn, Hsub.
  by apply elem_of_difference.
Qed.

Lemma pair_C_in_B : Sentence.cells C ⊆ Sentence.cells B.
Proof. simpl. intros x [Hx _]%elem_of_difference. done. Qed.

Lemma pair_B_minus_C : Sentence.cells B ∖ Sentence.cells C = Sentence.cells A.
Proof.
  simpl. apply set_eq. intros x. rewrite !elem_of_difference. split.
  - intros [Hb Hn]. destruct (decide (x ∈ Sentence.cells A)); [done|]. by destruct Hn.
  - intros Ha. split; [by apply A_subset|]. tauto.
Qed.

Lemma pair_C_not_known (h w : Z) (mv mi sa : gset Cell) (K : list Sentence.t) :
  K = [A; B] ∨ K = [B; A] →
  MinesweeperAI.in_knowledge (Sentence.cells B ∖ Sentence.cells A)
    (Sentence.count B - Sentence.count A) (MinesweeperAI.mk h w mv mi sa K n) = false.
Proof.
  unfold MinesweeperAI.in_knowledge. simpl.
  fold C. intros [-> | ->]; simpl;
    by rewrite (eqb_false_cells A C pair_A_ne_C), (eqb_false_cells B C pair_B_ne_C).
Qed.

Lemma pair_A_known (h w : Z) (mv mi sa : gset Cell) (K : list Sentence.t) (m : nat) :
  A ∈ K →
  MinesweeperAI.in_knowledge (Sentence.cells B ∖ Sentence.cells C)
    (Sentence.count B - Sentence.count C) (MinesweeperAI.mk h w mv mi sa K m) = true.
Proof.
  intros HA. unfold MinesweeperAI.in_knowledge. simpl.
  apply existsb_exists. exists A. split; [by apply list_elem_of_In|].
  apply eqb_true. simpl. split.
  - symmetry. apply pair_B_minus_C.
  - lia.
Qed.

Lemma pair_inferences_AB (h w : Z) (mv mi sa : gset Cell) (fuel : nat) :
  MinesweeperAI.inferences (7 + fuel) (MinesweeperAI.mk h w mv mi sa [A; B] n)
  = Some (MinesweeperAI.mk h w mv mi sa [A; B; C] (S n)).
Proof.
  set (ai0 := MinesweeperAI.mk h w mv mi sa [A; B] n).
  set (ai1 := MinesweeperAI.mk h w mv mi sa [A; B; C] (S n)).
  assert (Sentence.oid C = n) as HoC by done.
  assert (∀ f, MinesweeperAI.inner_loop (4 + f) A 0 ai0 = Some ai1) as HinA.
  { intros f. change (4 + f) with (S (S (S (S f)))).
    rewrite (inner_loop_step _ A A 0 ai0) by done.
    rewrite compare_pair_same_object by done.
    rewrite (inner_loop_step _ A B 1 ai0) by done.
    rewrite compare_pair_subset by done.
    unfold ai0 at 1. rewrite pair_C_not_known by (by left).
    change (MinesweeperAI.append_sentence _ _ ai0) with ai1.
    rewrite (inner_loop_step _ A C 2 ai1) by done.
    rewrite compare_pair_not_subset by (rewrite ?HoC; auto using pair_A_not_in_C).
    by rewrite inner_loop_stop. }
  assert (∀ f, MinesweeperAI.inner_loop (4 + f) B 0 ai1 = Some ai1) as HinB.
  { intros f. change (4 + f) with (S (S (S (S f)))).
    rewrite (inner_loop_step _ B A 0 ai1) by done.
    rewrite compare_pair_not_subset by (auto using pair_B_not_in_A).
    rewrite (inner_loop_step _ B B 1 ai1) by done.
    rewrite compare_pair_same_object by done.
    rewrite (inner_loop_step _ B C 2 ai1) by done.
    rewrite compare_pair_not_subset by (rewrite ?HoC; auto using pair_B_not_in_C).
    by rewrite inner_loop_stop. }
  assert (∀ f, MinesweeperAI.inner_loop (4 + f) C 0 ai1 = Some ai1) as HinC.
  { intros f. change (4 + f) with (S (S (S (S f)))).
    rewrite (inner_loop_step _ C A 0 ai1) by done.
    rewrite compare_pair_not_subset by (rewrite ?HoC; auto using pair_C_not_in_A).
    rewrite (inner_loop_step _ C B 1 ai1) by done.
    rewrite compare_pair_subset
      by (rewrite ?HoC; auto using pair_C_in_B; apply not_eq_sym, pair_B_ne_C).
    unfold ai1 at 1. rewrite pair_A_known by (by left).
    rewrite (inner_loop_step _ C C 2 ai1) by done.
    rewrite compare_pair_same_object by done.
    by rewrite inner_loop_stop. }
  unfold MinesweeperAI.inferences.
  change (7 + fuel) with (S (4 + (S (S fuel)))).
  rewrite (outer_loop_step _ A 0 ai0 ai1) by (done || apply HinA).
  change (4 + S (S fuel)) with (S (4 + S fuel)).
  rewrite (outer_loop_step _ B 1 ai1 ai1) by (done || apply HinB).
  change (4 + S fuel) with (S (4 + fuel)).
  rewrite (outer_loop_step _ C 2 ai1 ai1) by (done || apply HinC).
  change (4 + fuel) with (S (3 + fuel)). by rewrite outer_loop_stop.
Qed.

Lemma pair_inferences_BA (h w : Z) (mv mi sa : gset Cell) (fuel : nat) :
  MinesweeperAI.inferences (7 + fuel) (MinesweeperAI.mk h w mv mi sa [B; A] n)
  = Some (MinesweeperAI.mk h w mv mi sa [B; A; C] (S n)).
Proof.
  set (ai0 := MinesweeperAI.mk h w mv mi sa [B; A] n).
  set (ai1 := MinesweeperAI.mk h w mv mi sa [B; A; C] (S n)).
  assert (Sentence.oid C = n) as HoC by done.
  assert (∀ f, MinesweeperAI.inner_loop (4 + f) B 0 ai0 = Some ai0) as HinB0.
  { intros f. change (4 + f) with (S (S (S (S f)))).
    rewrite (inner_loop_step _ B B 0 ai0) by done.
    rewrite compare_pair_same_object by done.
    rewrite (inner_loop_step _ B A 1 ai0) by done.
    rewrite compare_pair_not_subset by (auto using pair_B_not_in_A).
    by rewrite inner_loop_stop. }
  assert (∀ f, MinesweeperAI.inner_loop (4 + f) A 0 ai0 = Some ai1) as HinA.
  { intros f. change (4 + f) with (S (S (S (S f)))).
    rewrite (inner_loop_step _ A B 0 ai0) by done.
    rewrite compare_pair_subset by done.
    unfold ai0 at 1. rewrite pair_C_not_known by (by right).
    change (MinesweeperAI.append_sentence _ _ ai0) with ai1.
    rewrite (inner_loop_step _ A A 1 ai1) by done.
    rewrite compare_pair_same_object by done.
    rewrite (inner_loop_step _ A C 2 ai1) by done.
    rewrite compare_pair_not_subset by (rewrite ?HoC; auto using pair_A_not_in_C).
    by rewrite inner_loop_stop. }
  assert (∀ f, MinesweeperAI.inner_loop (4 + f) C 0 ai1 = Some ai1) as HinC.
  { intros f. change (4 + f) with (S (S (S (S f)))).
    rewrite (inner_loop_step _ C B 0 ai1) by done.
    rewrite compare_pair_subset
      by (rewrite ?HoC; auto using pair_C_in_B; apply not_eq_sym, pair_B_ne_C).
    unfold ai1 at 1. rewrite pair_A_known by (right; by left).
    rewrite (inner_loop_step _ C A 1 ai1) by done.
    rewrite compare_pair_not_subset by (rewrite ?HoC; auto using pair_C_not_in_A).
    rewrite (inner_loop_step _ C C 2 ai1) by done.
    rewrite compare_pair_same_object by done.
    by rewrite inner_loop_stop. }
  unfold MinesweeperAI.inferences.
  change (7 + fuel) with (S (4 + (S (S fuel)))).
  rewrite (outer_loop_step _ B 0 ai0 ai0) by (done || apply HinB0).
  change (4 + S (S fuel)) with (S (4 + S fuel)).
  rewrite (outer_loop_step _ A 1 ai0 ai1) by (done || apply HinA).
  change (4 + S fuel) with (S (4 + fuel)).
  rewrite (outer_loop_step _ C 2 ai1 ai1) by (done || apply HinC).
  change (4 + fuel) with (S (3 + fuel)). by rewrite outer_loop_stop.
Qed.

End Pair.

(** X19 — subset inference on a list of two sentences. If the list
    holds two distinct objects [A] and [B], in either order, and the cells
    of [A] are a non-empty proper subset of the cells of [B], step 5
    returns with the list grown by one new sentence, whose cells are the
    cells of [B] that are not cells of [A] and whose count is the count
    of [B] less the count of [A]; nothing else changes. *)
Theorem X19_subset_inference_of_a_pair (h w : Z) (mv mi sa : gset Cell)
    (A B : Sentence.t) (n fuel : nat) :
  Sentence.oid A ≠ Sentence.oid B →
  Sentence.oid A ≠ n → Sentence.oid B ≠ n →
  Sentence.cells A ≠ ∅ →
  Sentence.cells A ⊆ Sentence.cells B →
  Sentence.cells A ≠ Sentence.cells B →
  MinesweeperAI.inferences (7 + fuel) (MinesweeperAI.mk h w mv mi sa [A; B] n)
  = Some (MinesweeperAI.mk h w mv mi sa
            [A; B; Sentence.mk n (Sentence.cells B ∖ Sentence.cells A)
                               (Sentence.count B - Sentence.count A)] (S n)) ∧
  MinesweeperAI.inferences (7 + fuel) (MinesweeperAI.mk h w mv mi sa [B; A] n)
  = Some (MinesweeperAI.mk h w mv mi sa
            [B; A; Sentence.mk n (Sentence.cells B ∖ Sentence.cells A)
                               (Sentence.count B - Sentence.count A)] (S n)).
Proof.
  intros H1 H2 H3 H4 H5 H6. split.
  - by apply (pair_inferences_AB A B n).
  - by apply (pair_inferences_BA A B n).
Qed.

Lemma X19_subset_inference_of_a_pair_witness :
  Sentence.oid (Sentence.mk 0 {[ (0, 0)%Z ]} 1)
  ≠ Sentence.oid (Sentence.mk 1 {[ (0, 0)%Z; (0, 1)%Z ]} 1) ∧
  Sentence.oid (Sentence.mk 0 {[ (0, 0)%Z ]} 1) ≠ 2 ∧
  Sentence.oid (Sentence.mk 1 {[ (0, 0)%Z; (0, 1)%Z ]} 1) ≠ 2 ∧
  Sentence.cells (Sentence.mk 0 {[ (0, 0)%Z ]} 1) ≠ ∅ ∧
  Sentence.cells (Sentence.mk 0 {[ (0, 0)%Z ]} 1)
  ⊆ Sentence.cells (Sentence.mk 1 {[ (0, 0)%Z; (0, 1)%Z ]} 1) ∧
  Sentence.cells (Sentence.mk 0 {[ (0, 0)%Z ]} 1)
  ≠ Sentence.cells (Sentence.mk 1 {[ (0, 0)%Z; (0, 1)%Z ]} 1) ∧
  MinesweeperAI.inferences (7 + 0)
    (MinesweeperAI.mk 1 2 ∅ ∅ ∅
       [Sentence.mk 0 {[ (0, 0)%Z ]} 1; Sentence.mk 1 {[ (0, 0)%Z; (0, 1)%Z ]} 1] 2)
  = Some (MinesweeperAI.mk 1 2 ∅ ∅ ∅
            [Sentence.mk 0 {[ (0, 0)%Z ]} 1; Sentence.mk 1 {[ (0, 0)%Z; (0, 1)%Z ]} 1;
             Sentence.mk 2
               (Sentence.cells (Sentence.mk 1 {[ (0, 0)%Z; (0, 1)%Z ]} 1)
                ∖ Sentence.cells (Sentence.mk 0 {[ (0, 0)%Z ]} 1))
               (Sentence.count (Sentence.mk 1 {[ (0, 0)%Z; (0, 1)%Z ]} 1)
                - Sentence.count (Sentence.mk 0 {[ (0, 0)%Z ]} 1))] 3) ∧
  MinesweeperAI.inferences (7 + 0)
    (MinesweeperAI.mk 1 2 ∅ ∅ ∅
       [Sentence.mk 1 {[ (0, 0)%Z; (0, 1)%Z ]} 1; Sentence.mk 0 {[ (0, 0)%Z ]} 1] 2)
  = Some (MinesweeperAI.mk 1 2 ∅ ∅ ∅
            [Sentence.mk 1 {[ (0, 0)%Z; (0, 1)%Z ]} 1; Sentence.mk 0 {[ (0, 0)%Z ]} 1;
             Sentence.mk 2
               (Sentence.cells (Sentence.mk 1 {[ (0, 0)%Z; (0, 1)%Z ]} 1)
                ∖ Sentence.cells (Sentence.mk 0 {[ (0, 0)%Z ]} 1))
               (Sentence.count (Sentence.mk 1 {[ (0, 0)%Z; (0, 1)%Z ]} 1)
                - Sentence.count (Sentence.mk 0 {[ (0, 0)%Z ]} 1))] 3).
Proof.
  split; [apply (bool_decide_unpack _); vm_compute; exact I|].
  split; [apply (bool_decide_unpack _); vm_compute; exact I|].
  split; [apply (bool_decide_unpack _); vm_compute; exact I|].
  split; [apply (bool_decide_unpack _); vm_compute; exact I|].
  split; [apply (bool_decide_unpack _); vm_compute; exact I|].
  split; [apply (bool_decide_unpack _); vm_compute; exact I|].
  apply (X19_subset_inference_of_a_pair 1 2 ∅ ∅ ∅
           (Sentence.mk 0 {[ (0, 0)%Z ]} 1)
           (Sentence.mk 1 {[ (0, 0)%Z; (0, 1)%Z ]} 1) 2 0);
    apply (bool_decide_unpack _); vm_compute; exact I.
Defined.

(** ** The move selection *)

Lemma choice_elem_of {A : Type} (r : nat) (l : list A) (x : A) :
  choice r l = Some x → x ∈ l.
Proof. unfold choice. intros Hx. apply list_elem_of_lookup. eauto. Qed.

Lemma choice_is_Some {A : Type} (r : nat) (l : list A) :
  l ≠ [] → is_Some (choice r l).
Proof.
  intros Hl. unfold choice. apply lookup_lt_is_Some.
  apply Nat.mod_upper_bound. by destruct l.
Qed.

Lemma choice_any {A : Type} (l : list A) (x : A) :
  x ∈ l → ∃ r, choice r l = Some x.
Proof.
  intros [i Hi]%list_elem_of_lookup. exists i. unfold choice.
  rewrite Nat.mod_small; [done|]. by eapply lookup_lt_Some.
Qed.

Lemma elem_of_board_cells (height width : Z) (c : Cell) :
  c ∈ board_cells height width ↔ in_bounds height width c = true.
Proof.
  split; [|apply in_bounds_board_cells].
  destruct c as [i j]. unfold board_cells.
  intros (i' & (j' & Hc & Hj)%list_elem_of_bind & Hi)%list_elem_of_bind.
  apply list_elem_of_singleton in Hc. injection Hc as -> ->.
  apply elem_of_seqZ in Hi, Hj. apply in_bounds_true. simpl. lia.
Qed.

(** X21 — [make_safe_move] returns a cell of [safes] that is not in
    [moves_made]; it returns [None] exactly when there is no such cell;
    and every such cell is returned for some draw. *)
Theorem X21_make_safe_move (ai : MinesweeperAI.t) :
  (∀ r c, make_safe_move r ai = Some c →
          c ∈ MinesweeperAI.safes ai ∧ c ∉ MinesweeperAI.moves_made ai) ∧
  (∀ r, make_safe_move r ai = None ↔
        MinesweeperAI.safes ai ⊆ MinesweeperAI.moves_made ai) ∧
  (∀ c, c ∈ MinesweeperAI.safes ai → c ∉ MinesweeperAI.moves_made ai →
        ∃ r, make_safe_move r ai = Some c).
Proof.
  unfold make_safe_move. split_and!.
  - intros r c. case_bool_decide as Hne; [|done].
    intros Hc%choice_elem_of%elem_of_elements. by apply elem_of_difference in Hc.
  - intros r. case_bool_decide as Hne.
    + split.
      * intros Hnone.
        destruct (choice_is_Some r (elements (MinesweeperAI.safes ai
                                              ∖ MinesweeperAI.moves_made ai)))
          as [x Hx]; [|congruence].
        intros Hnil. apply Hne. by apply leibniz_equiv, elements_empty_iff.
      * intros Hsub. exfalso. apply Hne. apply set_eq. intros x.
        rewrite elem_of_difference, elem_of_empty. split; [|done].
        intros [Hs Hm]. by apply Hm, Hsub.
    + split; [|done]. intros _ x Hx.
      destruct (decide (x ∈ MinesweeperAI.moves_made ai)) as [|Hn]; [done|].
      exfalso. apply (not_elem_of_empty (C:=gset Cell) x). rewrite <- Hne.
      by apply elem_of_difference.
  - intros c Hs Hm.
    assert (c ∈ MinesweeperAI.safes ai ∖ MinesweeperAI.moves_made ai) as Hc
      by (by apply elem_of_difference).
    destruct (choice_any (elements (MinesweeperAI.safes ai ∖ MinesweeperAI.moves_made ai)) c)
      as [r Hr]; [by apply elem_of_elements|].
    exists r. rewrite bool_decide_eq_true_2; [done|].
    intros Hemp. rewrite Hemp in Hc. by apply not_elem_of_empty in Hc.
Qed.

Lemma X21_make_safe_move_witness :
  make_safe_move 0 state_B = Some (0, 1)%Z ∧
  (0, 1)%Z ∈ MinesweeperAI.safes state_B ∧
  (0, 1)%Z ∉ MinesweeperAI.moves_made state_B.
Proof.
  split; [vm_compute; reflexivity|].
  apply (proj1 (X21_make_safe_move state_B) 0 (0, 1)%Z).
  vm_compute. reflexivity.
Defined.

(** X22 — in a state reached from the initial one by valid observations,
    the cell that [make_safe_move] returns is not a mine of the board. *)
Theorem X22_a_safe_move_is_never_a_mine (g : Minesweeper.t) (fuel : nat)
    (observations : list (Cell * Z)) (ai : MinesweeperAI.t) (r : nat) (c : Cell) :
  Forall (valid_observation g) observations →
  play fuel observations
       (MinesweeperAI.init (Minesweeper.height g) (Minesweeper.width g)) = Some ai →
  make_safe_move r ai = Some c →
  Minesweeper.is_mine g c = false.
Proof.
  intros Hvalid Hplay Hmove.
  assert (sound g ai) as Hai.
  { eapply play_sound; [exact Hvalid|apply sound_init|exact Hplay]. }
  unfold make_safe_move in Hmove. case_bool_decide as Hne; [|done].
  apply choice_elem_of, elem_of_elements, elem_of_difference in Hmove as [Hs _].
  unfold Minesweeper.is_mine, Minesweeper.board. apply bool_decide_eq_false_2.
  intros Hm. by apply (sound_safes g ai Hai c).
Qed.

Lemma X22_a_safe_move_is_never_a_mine_witness :
  Forall (valid_observation board_B) [((0, 0)%Z, 0%Z)] ∧
  play 10 [((0, 0)%Z, 0%Z)] (MinesweeperAI.init 1 4) = Some state_B ∧
  make_safe_move 0 state_B = Some (0, 1)%Z ∧
  Minesweeper.is_mine board_B (0, 1)%Z = false.
Proof.
  split; [valid_game|].
  split; [vm_compute; reflexivity|].
  split; [vm_compute; reflexivity|].
  apply (X22_a_safe_move_is_never_a_mine board_B 10 [((0, 0)%Z, 0%Z)] state_B 0 (0, 1)%Z).
  - valid_game.
  - vm_compute. reflexivity.
  - vm_compute. reflexivity.
Defined.

(** X23 — the cell that [make_random_move] returns is a cell of the
    board that is neither in [moves_made] nor in [mines]; and when the
    sizes of [mines] and [moves_made] do not add up to the number of cells
    of the board, every such cell is returned for some draw. *)
Theorem X23_make_random_move (ai : MinesweeperAI.t) :
  (∀ r c, make_random_move r ai = Some c → available ai c) ∧
  (∀ c, available ai c →
        Z.of_nat (size (MinesweeperAI.mines ai) + size (MinesweeperAI.moves_made ai))
        ≠ (MinesweeperAI.height ai * MinesweeperAI.width ai)%Z →
        ∃ r, make_random_move r ai = Some c).
Proof.
  unfold make_random_move, available. split.
  - intros r c. case_bool_decide as Hfull; [done|].
    destruct (filter _ _) as [|x l] eqn:Hl; [done|].
    intros Hc%choice_elem_of. rewrite <- Hl in Hc.
    apply list_elem_of_filter in Hc as [[Hmv Hmi] Hb].
    by apply elem_of_board_cells in Hb.
  - intros c (Hb & Hmv & Hmi) Hfull.
    rewrite bool_decide_eq_false_2 by done.
    assert (c ∈ filter (λ cell, (cell ∉ MinesweeperAI.moves_made ai) ∧
                               (cell ∉ MinesweeperAI.mines ai))
                  (board_cells (MinesweeperAI.height ai) (MinesweeperAI.width ai)))
      as Hc.
    { apply list_elem_of_filter. split; [done|]. by apply elem_of_board_cells. }
    destruct (choice_any _ c Hc) as [r Hr]. exists r.
    destruct (filter _ _) as [|x l]; [|done]. by apply elem_of_nil in Hc.
Qed.

Lemma X23_make_random_move_witness :
  make_random_move 0 state_B = Some (0, 1)%Z ∧ available state_B (0, 1)%Z.
Proof.
  split; [vm_compute; reflexivity|].
  apply (proj1 (X23_make_random_move state_B) 0 (0, 1)%Z).
  vm_compute. reflexivity.
Defined.

Lemma length_bind_const {A B : Type} (f : A → list B) (n : nat) (l : list A) :
  (∀ x, length (f x) = n) → length (l ≫= f) = length l * n.
Proof.
  intros Hf. induction l as [|x l IH]; [done|].
  change ((x :: l) ≫= f) with (f x ++ (l ≫= f)).
  rewrite length_app, Hf, IH. simpl. lia.
Qed.

Lemma length_board_cells (height width : Z) :
  length (board_cells height width) = Z.to_nat height * Z.to_nat width.
Proof.
  unfold board_cells.
  rewrite (length_bind_const _ (Z.to_nat width)); [by rewrite length_seqZ|].
  intros i. rewrite (length_bind_const _ 1); [rewrite length_seqZ; lia|done].
Qed.

Lemma NoDup_board_cells (height width : Z) : NoDup (board_cells height width).
Proof.
  unfold board_cells. apply NoDup_bind.
  - intros i1 i2 c _ _ (j1 & Hc1 & _)%list_elem_of_bind (j2 & Hc2 & _)%list_elem_of_bind.
    apply list_elem_of_singleton in Hc1, Hc2. congruence.
  - intros i _. apply NoDup_bind.
    + intros j1 j2 c _ _ Hc1%list_elem_of_singleton Hc2%list_elem_of_singleton.
      congruence.
    + intros j _. apply NoDup_singleton.
    + apply NoDup_seqZ.
  - apply NoDup_seqZ.
Qed.

(** The observations of a board are those of the board without the mines
    that lie outside of it: [is_mine] is only asked about cells of the
    board, and [nearby_mines] skips the cells outside. *)
Lemma valid_observation_on_board (g : Minesweeper.t) (o : Cell * Z) :
  valid_observation g o →
  valid_observation
    (Minesweeper.mk (Minesweeper.height g) (Minesweeper.width g)
       (filter (λ c, in_bounds (Minesweeper.height g) (Minesweeper.width g) c = true)
               (Minesweeper.mines g))) o.
Proof.
  intros (Hb & Hm & Hn). split_and!.
  - exact Hb.
  - unfold Minesweeper.is_mine, Minesweeper.board in *. simpl.
    apply bool_decide_eq_false in Hm. apply bool_decide_eq_false_2.
    intros [_ H]%elem_of_filter. done.
  - rewrite Hn. unfold Minesweeper.nearby_mines.
    rewrite !count_window_filter. simpl. do 3 f_equal.
    apply list_filter_iff. intros x. rewrite elem_of_filter. tauto.
Qed.

Lemma play_mines_on_board (g : Minesweeper.t) (fuel : nat)
    (observations : list (Cell * Z)) (ai : MinesweeperAI.t) (c : Cell) :
  Forall (valid_observation g) observations →
  play fuel observations
       (MinesweeperAI.init (Minesweeper.height g) (Minesweeper.width g)) = Some ai →
  c ∈ MinesweeperAI.mines ai →
  in_bounds (Minesweeper.height g) (Minesweeper.width g) c = true.
Proof.
  intros Hvalid Hplay Hc.
  assert (sound (Minesweeper.mk (Minesweeper.height g) (Minesweeper.width g)
                   (filter (λ c, in_bounds (Minesweeper.height g)
                                           (Minesweeper.width g) c = true)
                           (Minesweeper.mines g))) ai) as Hai.
  { eapply play_sound; [|apply sound_init|exact Hplay].
    eapply Forall_impl; [exact Hvalid|]. apply valid_observation_on_board. }
  apply (sound_mines _ _ Hai) in Hc. simpl in Hc.
  by apply elem_of_filter in Hc as [Hc _].
Qed.

Lemma play_moves_on_board (g : Minesweeper.t) (fuel : nat)
    (observations : list (Cell * Z)) (ai : MinesweeperAI.t) (c : Cell) :
  Forall (valid_observation g) observations →
  play fuel observations
       (MinesweeperAI.init (Minesweeper.height g) (Minesweeper.width g)) = Some ai →
  c ∈ MinesweeperAI.moves_made ai →
  in_bounds (Minesweeper.height g) (Minesweeper.width g) c = true.
Proof.
  intros Hvalid Hplay Hc.
  rewrite (play_moves_made _ _ _ _ Hplay) in Hc. simpl in Hc.
  apply elem_of_union in Hc as [Hc|Hc]; [|by apply elem_of_empty in Hc].
  apply elem_of_list_to_set, list_elem_of_fmap in Hc as (o & -> & Ho).
  rewrite Forall_forall in Hvalid. by destruct (Hvalid o Ho) as (Hb & _).
Qed.

(** X24 — in a state reached from the initial one by valid observations,
    [make_random_move] returns [None] only when no cell of the board is
    left that is neither played nor a known mine: the test on the sizes
    of the two sets never gives up while such a cell exists. *)
Theorem X24_random_move_while_a_cell_is_left (g : Minesweeper.t) (fuel : nat)
    (observations : list (Cell * Z)) (ai : MinesweeperAI.t) (r : nat) :
  Forall (valid_observation g) observations →
  play fuel observations
       (MinesweeperAI.init (Minesweeper.height g) (Minesweeper.width g)) = Some ai →
  (make_random_move r ai = None ↔ ∀ c, ¬ available ai c).
Proof.
  intros Hvalid Hplay.
  assert (sound g ai) as Hai.
  { eapply play_sound; [exact Hvalid|apply sound_init|exact Hplay]. }
  pose proof (sound_height g ai Hai) as Hh.
  pose proof (sound_width g ai Hai) as Hw.
  unfold make_random_move, available. rewrite Hh, Hw. split.
  - case_bool_decide as Hfull.
    + intros _ c (Hb & Hmv & Hmi).
      apply in_bounds_true in Hb as Hb'.
      assert (MinesweeperAI.mines ai ∪ MinesweeperAI.moves_made ai
              ⊆ list_to_set (board_cells (Minesweeper.height g) (Minesweeper.width g)))
        as Hsub.
      { intros x Hx. apply elem_of_list_to_set, elem_of_board_cells.
        apply elem_of_union in Hx as [Hx|Hx].
        - by eapply play_mines_on_board.
        - by eapply play_moves_on_board. }
      assert (MinesweeperAI.mines ai ## MinesweeperAI.moves_made ai) as Hdisj.
      { intros x Hx Hx'. apply (sound_moves g ai Hai x Hx').
        by apply (sound_mines g ai Hai). }
      assert (c ∈ MinesweeperAI.mines ai ∪ MinesweeperAI.moves_made ai) as Hc.
      { apply (set_subseteq_size_equiv _ _ Hsub).
        - rewrite size_union by done.
          rewrite size_list_to_set by apply NoDup_board_cells.
          rewrite length_board_cells. nia.
        - by apply elem_of_list_to_set, elem_of_board_cells. }
      apply elem_of_union in Hc as [Hc|Hc]; done.
    + destruct (filter _ _) as [|x l] eqn:Hl.
      * intros _ c (Hb & Hmv & Hmi).
        assert (c ∈ filter (λ cell, (cell ∉ MinesweeperAI.moves_made ai) ∧
                                   (cell ∉ MinesweeperAI.mines ai))
                      (board_cells (Minesweeper.height g) (Minesweeper.width g)))
          as Hc.
        { apply list_elem_of_filter. split; [done|]. by apply elem_of_board_cells. }
        rewrite Hl in Hc. by apply elem_of_nil in Hc.
      * intros Hnone. destruct (choice_is_Some r (x :: l)) as [y Hy]; [done|congruence].
  - intros Hnone. case_bool_decide as Hfull; [done|].
    destruct (filter _ _) as [|x l] eqn:Hl; [done|]. exfalso.
    assert (x ∈ filter (λ cell, (cell ∉ MinesweeperAI.moves_made ai) ∧
                               (cell ∉ MinesweeperAI.mines ai))
                  (board_cells (Minesweeper.height g) (Minesweeper.width g)))
      as Hx by (rewrite Hl; apply list_elem_of_here).
    apply list_elem_of_filter in Hx as [[Hmv Hmi] Hb].
    apply (Hnone x). by apply elem_of_board_cells in Hb.
Qed.

Lemma X24_random_move_while_a_cell_is_left_witness :
  Forall (valid_observation board_B) [((0, 0)%Z, 0%Z)] ∧
  play 10 [((0, 0)%Z, 0%Z)] (MinesweeperAI.init 1 4) = Some state_B ∧
  (make_random_move 0 state_B = None ↔ ∀ c, ¬ available state_B c).
Proof.
  split; [valid_game|].
  split; [vm_compute; reflexivity|].
  apply (X24_random_move_while_a_cell_is_left board_B 10 [((0, 0)%Z, 0%Z)] state_B 0).
  - valid_game.
  - vm_compute. reflexivity.
Defined.

(** ** The constructor of the board *)

Lemma randrange_in_range (stop : Z) (r : nat) :
  (0 < stop)%Z → (0 ≤ randrange stop r < stop)%Z.
Proof. intros Hs. unfold randrange. by apply Z.mod_pos_bound. Qed.

Lemma place_mines_returns (height width mines : Z) (draws : list (nat * nat)) :
  ∀ acc placed : gset Cell,
    place_mines height width mines draws acc = Returns placed →
    (∀ c, c ∈ acc → in_bounds height width c = true) →
    acc ⊆ placed ∧
    Z.of_nat (size placed) = mines ∧
    (∀ c, c ∈ placed → in_bounds height width c = true).
Proof.
  induction draws as [|r draws IH]; intros acc placed; simpl.
  - case_bool_decide as Hsize; [|by case_bool_decide].
    intros [= <-] Hacc. done.
  - case_bool_decide as Hsize.
    { intros [= <-] Hacc. done. }
    case_bool_decide as Hdim; [done|].
    intros Hrun Hacc. apply IH in Hrun as (Hsub & Hrun).
    + split; [|exact Hrun]. intros c Hc. apply Hsub.
      case_bool_decide; [done|]. by apply elem_of_union_r.
    + intros c Hc.
      assert (c = (randrange height r.1, randrange width r.2) ∨ c ∈ acc) as [->|Hc'].
      { case_bool_decide; [by right|].
        apply elem_of_union in Hc as [Hc%elem_of_singleton|Hc]; auto. }
      * apply in_bounds_true. simpl.
        split; apply randrange_in_range; lia.
      * by apply Hacc.
Qed.

Lemma place_mines_starves (height width mines : Z) (draws : list (nat * nat)) :
  (0 < height)%Z → (0 < width)%Z →
  (∀ cs : gset Cell, (∀ c, c ∈ cs → in_bounds height width c = true) →
                     Z.of_nat (size cs) ≠ mines) →
  ∀ acc : gset Cell,
    (∀ c, c ∈ acc → in_bounds height width c = true) →
    place_mines height width mines draws acc = Starves.
Proof.
  intros Hh Hw Hnever.
  induction draws as [|r draws IH]; intros acc Hacc; simpl.
  - rewrite bool_decide_eq_false_2 by by apply Hnever.
    rewrite bool_decide_eq_false_2 by lia. done.
  - rewrite bool_decide_eq_false_2 by by apply Hnever.
    rewrite bool_decide_eq_false_2 by lia.
    apply IH. intros c Hc.
    assert (c = (randrange height r.1, randrange width r.2) ∨ c ∈ acc) as [->|Hc'].
    { case_bool_decide; [by right|].
      apply elem_of_union in Hc as [Hc%elem_of_singleton|Hc]; auto. }
    + apply in_bounds_true. simpl. split; by apply randrange_in_range.
    + by apply Hacc.
Qed.

Lemma place_mines_done (height width mines : Z) (draws : list (nat * nat))
    (acc : gset Cell) :
  Z.of_nat (size acc) = mines →
  place_mines height width mines draws acc = Returns acc.
Proof.
  intros Hsize. destruct draws; unfold place_mines; by rewrite bool_decide_eq_true_2.
Qed.

Lemma place_mines_raises (height width mines : Z) (draws : list (nat * nat))
    (acc : gset Cell) :
  Z.of_nat (size acc) ≠ mines → (height ≤ 0 ∨ width ≤ 0)%Z →
  place_mines height width mines draws acc = Raises.
Proof.
  intros Hsize Hdim. destruct draws; unfold place_mines;
    rewrite bool_decide_eq_false_2 by done; by rewrite bool_decide_eq_true_2.
Qed.

Lemma size_on_board (height width : Z) (cs : gset Cell) :
  (0 ≤ height)%Z → (0 ≤ width)%Z →
  (∀ c, c ∈ cs → in_bounds height width c = true) →
  (Z.of_nat (size cs) ≤ height * width)%Z.
Proof.
  intros Hh Hw Hcs.
  assert (cs ⊆ list_to_set (board_cells height width)) as Hsub.
  { intros c Hc. by apply elem_of_list_to_set, elem_of_board_cells, Hcs. }
  apply subseteq_size in Hsub.
  rewrite size_list_to_set in Hsub by apply NoDup_board_cells.
  rewrite length_board_cells in Hsub. nia.
Qed.

(** X25 — a board that the constructor returns has the height and the
    width asked for, exactly the number of mines asked for, and all its
    mines on cells of the board. *)
Theorem X25_constructor_places_the_mines_on_the_board (height width mines : Z)
    (draws : list (nat * nat)) (g : Minesweeper.t) :
  Minesweeper_init height width mines draws = Returns g →
  Minesweeper.height g = height ∧
  Minesweeper.width g = width ∧
  Z.of_nat (size (Minesweeper.mines g)) = mines ∧
  (∀ c, c ∈ Minesweeper.mines g → in_bounds height width c = true).
Proof.
  unfold Minesweeper_init.
  destruct (place_mines height width mines draws ∅) as [placed| |] eqn:Hrun; [|done|done].
  intros [= <-]. simpl.
  apply place_mines_returns in Hrun as (_ & Hsize & Hin); [done|].
  intros c Hc. by apply elem_of_empty in Hc.
Qed.

Lemma X25_constructor_places_the_mines_on_the_board_witness :
  Minesweeper_init 2 2 2 [(0, 1); (2, 3); (1, 0)]
  = Returns (Minesweeper.mk 2 2 {[ (0, 1)%Z; (1, 0)%Z ]}) ∧
  Minesweeper.height (Minesweeper.mk 2 2 {[ (0, 1)%Z; (1, 0)%Z ]}) = 2%Z ∧
  Minesweeper.width (Minesweeper.mk 2 2 {[ (0, 1)%Z; (1, 0)%Z ]}) = 2%Z ∧
  Z.of_nat (size (Minesweeper.mines (Minesweeper.mk 2 2 {[ (0, 1)%Z; (1, 0)%Z ]}))) = 2%Z ∧
  (∀ c, c ∈ Minesweeper.mines (Minesweeper.mk 2 2 {[ (0, 1)%Z; (1, 0)%Z ]}) →
        in_bounds 2 2 c = true).
Proof.
  split; [vm_compute; reflexivity|].
  apply (X25_constructor_places_the_mines_on_the_board 2 2 2 [(0, 1); (2, 3); (1, 0)]).
  vm_compute. reflexivity.
Defined.

(** X26 — the constructor asked for more mines than the board has
    cells, or for a negative number of mines, never returns: on a board
    with at least one cell the loop is still running after any number of
    draws. With no cell to draw from, it raises as soon as one mine is
    asked for; asked for no mine, it returns the empty board. *)
Theorem X26_constructor_with_too_many_mines (height width mines : Z)
    (draws : list (nat * nat)) :
  ((0 < height)%Z → (0 < width)%Z → (mines < 0 ∨ height * width < mines)%Z →
   Minesweeper_init height width mines draws = Starves) ∧
  ((height ≤ 0 ∨ width ≤ 0)%Z → mines ≠ 0%Z →
   Minesweeper_init height width mines draws = Raises) ∧
  (mines = 0%Z →
   Minesweeper_init height width mines draws = Returns (Minesweeper.mk height width ∅)).
Proof.
  unfold Minesweeper_init. split_and!.
  - intros Hh Hw Hm. rewrite place_mines_starves; try done.
    intros cs Hcs.
    pose proof (size_on_board height width cs ltac:(lia) ltac:(lia) Hcs) as Hle. lia.
  - intros Hdim Hm. rewrite place_mines_raises; [done| |done].
    rewrite size_empty. simpl. lia.
  - intros ->. rewrite place_mines_done; [done|]. by rewrite size_empty.
Qed.

Lemma X26_constructor_with_too_many_mines_witness :
  (0 < 1)%Z ∧ (0 < 2)%Z ∧ (3 < 0 ∨ 1 * 2 < 3)%Z ∧
  Minesweeper_init 1 2 3 [(0, 0); (0, 1); (5, 7)] = Starves.
Proof.
  split; [lia|]. split; [lia|]. split; [lia|].
  apply (X26_constructor_with_too_many_mines 1 2 3 [(0, 0); (0, 1); (5, 7)]); lia.
Defined.
